(** * Session search: query sanitizer, predicate builder, executor, enricher

    A shallow embedding of [session_index/search.py].

    Conventions of the embedding.
    - A Python [str] is a list of Unicode code points ([pystr]); the
      whitespace predicate is the one of [str.isspace] and [str.strip].
    - An index returned by [str.find] is an [option nat]: [None] stands
      for Python's [-1].
    - Each [while] loop is a [Fixpoint] over an explicit fuel counter and
      returns [None] when the fuel runs out; the fuel handed to a loop is
      shown to be enough for every input.
    - The SQLite store is a record of tables (lists of rows in scan
      order); a column value is [option]al, [None] being SQL [NULL]; a
      [WHERE] clause is evaluated in SQL's three-valued logic.
    - An exception is an explicit [Raise] result.
    - What the store leaves open is fixed as follows: rows that tie under
      an [ORDER BY] keep their scan order, and groups that tie come out
      from the last key to the first; a session identifier is never
      NULL; integer parameters are in the range of SQLite's INTEGER.
    - The store is reachable and takes the parameters it is given: a text
      parameter can be encoded (it holds no lone surrogate) and a pattern
      is within the length SQLite allows.  The errors of the store that
      are modelled are the one the full-text engine raises for a MATCH
      expression and the integer overflow of [SUM]. *)

From Stdlib Require Import String Ascii DecimalString.
From Stdlib Require Import List ZArith NArith Bool Arith Lia.
From Stdlib Require Import Permutation Sorted.
Import ListNotations.

Set Implicit Arguments.

(** ** Python strings *)

Module Py.

Definition codepoint := N.
Definition pystr := list codepoint.

(** A literal written in ASCII, as a Python [str]. *)
Fixpoint lit (s : string) : pystr :=
  match s with
  | EmptyString => []
  | String a s' => N_of_ascii a :: lit s'
  end.

Definition quote : codepoint := 34%N.
Definition space : codepoint := 32%N.

(** [str.isspace] on one character (CPython's [Py_UNICODE_ISSPACE]). *)
Definition isspace (c : codepoint) : bool :=
  ((9 <=? c) && (c <=? 13) || (28 <=? c) && (c <=? 32)
   || (c =? 133) || (c =? 160) || (c =? 5760)
   || (8192 <=? c) && (c <=? 8202)
   || (c =? 8232) || (c =? 8233) || (c =? 8239) || (c =? 8287)
   || (c =? 12288))%N.

Fixpoint lstrip (s : pystr) : pystr :=
  match s with
  | [] => []
  | c :: s' => if isspace c then lstrip s' else s
  end.

Definition rstrip (s : pystr) : pystr := rev (lstrip (rev s)).

(** [s.strip()] *)
Definition strip (s : pystr) : pystr := rstrip (lstrip s).

(** Position of the first [c] in a list. *)
Fixpoint index_of (c : codepoint) (s : pystr) : option nat :=
  match s with
  | [] => None
  | d :: s' => if (d =? c)%N then Some 0 else option_map S (index_of c s')
  end.

(** [s.find(c, start)]; [None] is Python's [-1]. *)
Definition str_find (s : pystr) (c : codepoint) (start : nat) : option nat :=
  option_map (fun k => start + k) (index_of c (skipn start s)).

(** [s[i]], for [i] in range. *)
Definition char_at (s : pystr) (i : nat) : codepoint := nth i s 0%N.

(** [s[i:j]] and [s[i:]], for non-negative indices. *)
Definition slice (s : pystr) (i j : nat) : pystr := firstn (j - i) (skipn i s).
Definition slice_from (s : pystr) (i : nat) : pystr := skipn i s.

(** [" ".join(tokens)] *)
Fixpoint join_space (tokens : list pystr) : pystr :=
  match tokens with
  | [] => []
  | [t] => t
  | t :: ts => t ++ space :: join_space ts
  end.

End Py.
Import Py.

(** ** The query sanitizer: [_escape_fts_query] *)

(** The inner loop
    [while i < len(chars) and not chars[i].isspace() and chars[i] != QUOTE: i += 1],
    where QUOTE is the double-quote character; the value is the final [i]. *)
Fixpoint scan_token (fuel : nat) (chars : pystr) (i : nat) : option nat :=
  match fuel with
  | O => None
  | S fuel' =>
      if (i <? length chars) && negb (isspace (char_at chars i))
         && negb (char_at chars i =? quote)%N
      then scan_token fuel' chars (S i)
      else Some i
  end.

(** The outer loop [while i < len(chars): ...]; the value is the final
    [tokens]. *)
Fixpoint tokenize (fuel : nat) (chars : pystr) (i : nat) (tokens : list pystr)
  : option (list pystr) :=
  match fuel with
  | O => None
  | S fuel' =>
      if i <? length chars then
        if isspace (char_at chars i) then
          tokenize fuel' chars (S i) tokens
        else if (char_at chars i =? quote)%N then
          match str_find chars quote (S i) with
          | None =>
              Some (tokens ++ [quote :: slice_from chars (S i) ++ [quote]])
          | Some e =>
              tokenize fuel' chars (S e) (tokens ++ [slice chars i (S e)])
          end
        else
          match scan_token (S (length chars)) chars i with
          | None => None
          | Some j =>
              tokenize fuel' chars j
                (tokens ++ [quote :: slice chars i j ++ [quote]])
          end
      else Some tokens
  end.

(** The tokens the loop collects from the stripped input [chars]. *)
Definition tokens_of (chars : pystr) : option (list pystr) :=
  tokenize (S (length chars)) chars 0 [].

(** The [None] branch below is never taken: the loop returns within its
    fuel on every input (lemma [tokens_of_total]). *)
Definition _escape_fts_query (query : pystr) : pystr :=
  if match query with [] => true | _ => false end
     || match strip query with [] => true | _ => false end
  then []
  else
    match tokens_of (strip query) with
    | Some tokens => join_space tokens
    | None => []
    end.

(** ** Exceptions *)

Inductive exn :=
| OperationalError (msg : pystr)   (* sqlite3.OperationalError, raised by the store *)
| OverflowError (msg : pystr)      (* raised by datetime arithmetic *)
| OtherError (msg : pystr).        (* raised inside a collaborator *)

Inductive result (A : Type) :=
| Ok (a : A)
| Raise (e : exn).
Arguments Ok {A} a.
Arguments Raise {A} e.

Definition bind {A B} (m : result A) (k : A -> result B) : result B :=
  match m with
  | Ok a => k a
  | Raise e => Raise e
  end.

Notation "x <- m ;; k" := (bind m (fun x => k))
  (at level 61, m at next level, right associativity).

(** ** The store: SQLite values, operators and clauses *)

Module Sql.

(** A TEXT or INTEGER column value; [None] is [NULL]. *)
Definition text := option pystr.
Definition integer := option Z.

(** A truth value of SQL's three-valued logic; [None] is unknown. *)
Definition tv := option bool.

Definition tv_not (a : tv) : tv := option_map negb a.

Definition tv_or (a b : tv) : tv :=
  match a, b with
  | Some true, _ | _, Some true => Some true
  | Some false, Some false => Some false
  | _, _ => None
  end.

Definition tv_and (a b : tv) : tv :=
  match a, b with
  | Some false, _ | _, Some false => Some false
  | Some true, Some true => Some true
  | _, _ => None
  end.

(** A row passes [WHERE] when the condition is true (not false, not unknown). *)
Definition is_true (a : tv) : bool :=
  match a with
  | Some true => true
  | _ => false
  end.

Definition percent : codepoint := 37%N.
Definition underscore : codepoint := 95%N.

(** ASCII lower-casing, the only case folding of the built-in [LIKE]. *)
Definition lower (c : codepoint) : codepoint :=
  if ((65 <=? c) && (c <=? 90))%N then (c + 32)%N else c.

(** [s LIKE p] on two non-NULL texts, without ESCAPE: [%] matches any run
    of characters, [_] any one character, anything else itself up to
    ASCII case. *)
Fixpoint like_match (p s : pystr) {struct p} : bool :=
  match p with
  | [] => match s with [] => true | _ => false end
  | c :: p' =>
      if (c =? percent)%N then
        (fix any (s : pystr) : bool :=
           like_match p' s
           || match s with [] => false | _ :: s' => any s' end) s
      else
        match s with
        | [] => false
        | d :: s' =>
            ((c =? underscore)%N || (lower c =? lower d)%N) && like_match p' s'
        end
  end.

Definition like (x : text) (p : pystr) : tv :=
  option_map (like_match p) x.

(** Comparison of texts under the BINARY collation (code point order). *)
Fixpoint str_compare (a b : pystr) : comparison :=
  match a, b with
  | [], [] => Eq
  | [], _ :: _ => Lt
  | _ :: _, [] => Gt
  | c :: a', d :: b' =>
      match (c ?= d)%N with
      | Eq => str_compare a' b'
      | o => o
      end
  end.

Definition str_leb (a b : pystr) : bool :=
  match str_compare a b with Gt => false | _ => true end.

Definition str_eqb (a b : pystr) : bool :=
  match str_compare a b with Eq => true | _ => false end.

(** [x >= v] and [x = v] against a bound, non-NULL parameter. *)
Definition text_ge (x : text) (v : pystr) : tv :=
  option_map (fun s => str_leb v s) x.

Definition int_eq (x : integer) (v : Z) : tv :=
  option_map (fun n => (n =? v)%Z) x.

(** Order of [ORDER BY] on a TEXT key: NULL sorts before every text. *)
Definition text_leb (a b : text) : bool :=
  match a, b with
  | None, _ => true
  | Some _, None => false
  | Some x, Some y => str_leb x y
  end.

Section Clauses.
Variable Row : Type.

(** [WHERE cond] *)
Definition where_ (cond : Row -> tv) (rows : list Row) : list Row :=
  filter (fun r => is_true (cond r)) rows.

(** [ORDER BY]: a stable sort of the scan order by [leb]. *)
Fixpoint insert_by (leb : Row -> Row -> bool) (x : Row) (l : list Row)
  : list Row :=
  match l with
  | [] => [x]
  | y :: l' => if leb x y then x :: l else y :: insert_by leb x l'
  end.

Fixpoint order_by (leb : Row -> Row -> bool) (rows : list Row) : list Row :=
  match rows with
  | [] => []
  | x :: rows' => insert_by leb x (order_by leb rows')
  end.

(** [LIMIT n]: a negative [n] is no limit. *)
Definition limit (n : Z) (rows : list Row) : list Row :=
  if (n <? 0)%Z then rows else firstn (Z.to_nat n) rows.

(** [fetchone()]: the first row, if any. *)
Definition fetchone (rows : list Row) : option Row := hd_error rows.
End Clauses.

End Sql.

(** ** The tables *)

Record Session := {
  session_id : pystr;
  project_name : Sql.text;
  project : Sql.text;
  title : Sql.text;
  title_display : Sql.text;
  client : Sql.text;
  tags : Sql.text;
  exchange_count : Sql.integer;
  start_time : Sql.text;
  duration_minutes : Sql.integer;
  has_compaction : Sql.integer
}.

Record Topic := {
  topic_session_id : pystr;
  topic : Sql.text;
  captured_at : Sql.text;
  exchange_number : Sql.integer;
  source : Sql.text
}.

Record ToolUse := {
  tool_session_id : pystr;
  tool_name : Sql.text;
  use_count : Sql.integer
}.

Record AgentUse := {
  agent_session_id : pystr;
  agent_name : Sql.text
}.

(** A row of the full-text index that matched: its session and the
    snippet the engine computed for it. *)
Record FtsHit := {
  hit_session_id : pystr;
  hit_snippet : Sql.text
}.

(** The connection [self.conn].  [fts_match e] is the engine's answer to
    [session_content MATCH e]: the matching index rows in rank order, or
    the error the engine raises for the expression [e]. *)
Record Store := {
  sessions : list Session;
  session_topics : list Topic;
  session_tools : list ToolUse;
  session_agents : list AgentUse;
  fts_match : pystr -> result (list FtsHit)
}.

(** ** Result rows *)

(** [dict(row)] of [_get_topics]: the keys [topic] and [source]. *)
Record TopicBrief := {
  brief_topic : Sql.text;
  brief_source : Sql.text
}.

(** [dict(row)] of [topics]: the keys [topic], [captured_at],
    [exchange_number] and [source]. *)
Record TopicEntry := {
  entry_topic : Sql.text;
  entry_captured_at : Sql.text;
  entry_exchange_number : Sql.integer;
  entry_source : Sql.text
}.

(** A result of [search] or [find]: the selected columns, the [snippet]
    key when the query selects it ([None] when the key is absent), and
    the [topics] key added by the enrichment loop. *)
Record Result := {
  r_session_id : pystr;
  r_project_name : Sql.text;
  r_title : Sql.text;
  r_title_display : Sql.text;
  r_client : Sql.text;
  r_tags : Sql.text;
  r_exchange_count : Sql.integer;
  r_start_time : Sql.text;
  r_duration_minutes : Sql.integer;
  r_has_compaction : Sql.integer;
  r_snippet : option Sql.text;
  r_topics : list TopicBrief
}.

(** The wall clock: [days_ago d] is
    [(datetime.now() - timedelta(days=d)).isoformat()], which raises when
    the date leaves the range of [datetime]. *)
Record Clock := {
  days_ago : Z -> result pystr
}.

(** The keyword arguments of [find]; [None] is an argument left at its
    default [None]. *)
Module Arg.
Record Criteria := {
  client : option pystr;
  tag : option pystr;
  tool : option pystr;
  agent : option pystr;
  date : option pystr;
  week : bool;
  days : option Z;
  project : option pystr;
  exclude_project : option pystr;
  has_compaction : option bool
}.

(** The call [find()] with every criterion at its default. *)
Definition none : Criteria :=
  {| client := None; tag := None; tool := None; agent := None; date := None;
     week := false; days := None; project := None; exclude_project := None;
     has_compaction := None |}.

(** The calls [find(days=d)] and [find(has_compaction=b)]. *)
Definition only_days (d : Z) : Criteria :=
  {| client := None; tag := None; tool := None; agent := None; date := None;
     week := false; days := Some d; project := None; exclude_project := None;
     has_compaction := None |}.

Definition only_has_compaction (b : bool) : Criteria :=
  {| client := None; tag := None; tool := None; agent := None; date := None;
     week := false; days := None; project := None; exclude_project := None;
     has_compaction := Some b |}.

(** The call of [find] with every criterion supplied and falsy. *)
Definition all_falsy : Criteria :=
  {| client := Some []; tag := Some []; tool := Some []; agent := Some [];
     date := Some []; week := false; days := Some 0%Z; project := Some [];
     exclude_project := Some []; has_compaction := None |}.

(** The calls [find(project=x)] and [find(exclude_project=x)]. *)
Definition only_project (x : pystr) : Criteria :=
  {| client := None; tag := None; tool := None; agent := None; date := None;
     week := false; days := None; project := Some x; exclude_project := None;
     has_compaction := None |}.

Definition only_exclude_project (x : pystr) : Criteria :=
  {| client := None; tag := None; tool := None; agent := None; date := None;
     week := false; days := None; project := None; exclude_project := Some x;
     has_compaction := None |}.
End Arg.

(** One entry of [conditions], with the parameters appended to [params]
    for its placeholders. *)
Inductive Cond :=
| ClientLike (p : pystr)             (* s.client LIKE ? *)
| TagsLike (p : pystr)               (* s.tags LIKE ? *)
| ToolIn (p : pystr)                 (* s.session_id IN (SELECT session_id FROM session_tools WHERE tool_name LIKE ?) *)
| AgentIn (p : pystr)                (* s.session_id IN (SELECT session_id FROM session_agents WHERE agent_name LIKE ?) *)
| ProjectLike (p1 p2 : pystr)        (* (s.project_name LIKE ? OR s.project LIKE ?) *)
| StartTimeLike (p : pystr)          (* s.start_time LIKE ? *)
| StartTimeGe (v : pystr)            (* s.start_time >= ? *)
| NotProjectLike (p1 p2 : pystr)     (* NOT (s.project_name LIKE ? OR s.project LIKE ?) *)
| HasCompactionEq (v : Z).           (* s.has_compaction = ? *)

(** The text of [where]: the conditions joined by AND, or [1=1]. *)
Inductive Where :=
| MatchAll
| AllOf (conditions : list Cond).

Module SessionSearch.

(** The pattern [f"%{v}%"] and the pattern [f"{v}%"]. *)
Definition contains_pattern (v : pystr) : pystr := Sql.percent :: v ++ [Sql.percent].
Definition prefix_pattern (v : pystr) : pystr := v ++ [Sql.percent].

(** Truth of a [str] argument: supplied and not empty. *)
Definition truthy_str (v : option pystr) : option pystr :=
  match v with
  | Some (c :: s) => Some (c :: s)
  | _ => None
  end.

(** [if v: conditions.append(clause(v))] *)
Definition append_if (v : option pystr) (clause : pystr -> Cond)
    (conditions : list Cond) : list Cond :=
  match truthy_str v with
  | Some s => conditions ++ [clause s]
  | None => conditions
  end.

(** The list [conditions] that [find] builds, lines 108 to 151. *)
Definition find_conditions (clock : Clock) (c : Arg.Criteria)
  : result (list Cond) :=
  let conditions := [] in
  let conditions :=
    append_if (Arg.client c) (fun v => ClientLike (contains_pattern v)) conditions in
  let conditions :=
    append_if (Arg.tag c) (fun v => TagsLike (contains_pattern v)) conditions in
  let conditions :=
    append_if (Arg.tool c) (fun v => ToolIn (contains_pattern v)) conditions in
  let conditions :=
    append_if (Arg.agent c) (fun v => AgentIn (contains_pattern v)) conditions in
  let conditions :=
    append_if (Arg.project c)
      (fun v => ProjectLike (contains_pattern v) (contains_pattern v)) conditions in
  let conditions :=
    append_if (Arg.date c) (fun v => StartTimeLike (prefix_pattern v)) conditions in
  conditions <-
    (if Arg.week c then
       week_ago <- days_ago clock 7 ;;
       Ok (conditions ++ [StartTimeGe week_ago])
     else Ok conditions) ;;
  conditions <-
    (match Arg.days c with
     | Some d =>
         if (d =? 0)%Z then Ok conditions
         else
           cutoff <- days_ago clock d ;;
           Ok (conditions ++ [StartTimeGe cutoff])
     | None => Ok conditions
     end) ;;
  let conditions :=
    append_if (Arg.exclude_project c)
      (fun v => NotProjectLike (contains_pattern v) (contains_pattern v)) conditions in
  let conditions :=
    match Arg.has_compaction c with
    | Some b => conditions ++ [HasCompactionEq (if b then 1 else 0)%Z]
    | None => conditions
    end in
  Ok conditions.

(** [" AND ".join(conditions) if conditions else "1=1"] *)
Definition where_of (conditions : list Cond) : Where :=
  match conditions with
  | [] => MatchAll
  | _ => AllOf conditions
  end.

(** [s.session_id IN (SELECT session_id FROM t WHERE name LIKE ?)] *)
Definition in_subquery (T : Type) (sid : T -> pystr) (name : T -> Sql.text)
    (table : list T) (p : pystr) (s : Session) : Sql.tv :=
  Some (existsb (fun r => Sql.str_eqb (session_id s) (sid r))
          (Sql.where_ (fun r => Sql.like (name r) p) table)).

Definition eval_cond (st : Store) (s : Session) (c : Cond) : Sql.tv :=
  match c with
  | ClientLike p => Sql.like (client s) p
  | TagsLike p => Sql.like (tags s) p
  | ToolIn p => in_subquery tool_session_id tool_name (session_tools st) p s
  | AgentIn p => in_subquery agent_session_id agent_name (session_agents st) p s
  | ProjectLike p1 p2 =>
      Sql.tv_or (Sql.like (project_name s) p1) (Sql.like (project s) p2)
  | StartTimeLike p => Sql.like (start_time s) p
  | StartTimeGe v => Sql.text_ge (start_time s) v
  | NotProjectLike p1 p2 =>
      Sql.tv_not (Sql.tv_or (Sql.like (project_name s) p1) (Sql.like (project s) p2))
  | HasCompactionEq v => Sql.int_eq (has_compaction s) v
  end.

Definition eval_where (st : Store) (w : Where) (s : Session) : Sql.tv :=
  match w with
  | MatchAll => Some true
  | AllOf conditions =>
      fold_left (fun acc c => Sql.tv_and acc (eval_cond st s c)) conditions (Some true)
  end.

(** [ORDER BY captured_at] *)
Definition by_captured_at (a b : Topic) : bool :=
  Sql.text_leb (captured_at a) (captured_at b).

(** [ORDER BY s.start_time DESC] *)
Definition by_start_time_desc (a b : Session) : bool :=
  Sql.text_leb (start_time b) (start_time a).

(** [WHERE session_id = ?] on [session_topics] *)
Definition topic_of (sid : pystr) (t : Topic) : Sql.tv :=
  Some (Sql.str_eqb (topic_session_id t) sid).

Definition brief (t : Topic) : TopicBrief :=
  {| brief_topic := topic t; brief_source := source t |}.

Definition entry (t : Topic) : TopicEntry :=
  {| entry_topic := topic t; entry_captured_at := captured_at t;
     entry_exchange_number := exchange_number t; entry_source := source t |}.

Definition _get_topics (st : Store) (sid : pystr) : list TopicBrief :=
  map brief
    (Sql.limit 10
       (Sql.order_by by_captured_at
          (Sql.where_ (topic_of sid) (session_topics st)))).

Definition topics (st : Store) (sid : pystr) : list TopicEntry :=
  map entry
    (Sql.order_by by_captured_at
       (Sql.where_ (topic_of sid) (session_topics st))).

(** [r = dict(row); r['topics'] = self._get_topics(row['session_id'])] *)
Definition enrich (st : Store) (s : Session) (snippet : option Sql.text) : Result :=
  {| r_session_id := session_id s;
     r_project_name := project_name s;
     r_title := title s;
     r_title_display := title_display s;
     r_client := client s;
     r_tags := tags s;
     r_exchange_count := exchange_count s;
     r_start_time := start_time s;
     r_duration_minutes := duration_minutes s;
     r_has_compaction := has_compaction s;
     r_snippet := snippet;
     r_topics := _get_topics st (session_id s) |}.

Definition default_limit : Z := 20.

(** The rows fetched by the query of [find]. *)
Definition find_rows (st : Store) (w : Where) (limit : Z) : list Session :=
  Sql.limit limit
    (Sql.order_by by_start_time_desc
       (Sql.where_ (eval_where st w) (sessions st))).

Definition find (st : Store) (clock : Clock) (c : Arg.Criteria) (limit : Z)
  : result (list Result) :=
  conditions <- find_conditions clock c ;;
  let rows := find_rows st (where_of conditions) limit in
  Ok (map (fun s => enrich st s None) rows).

Definition recent (st : Store) (clock : Clock) (n : Z) : result (list Result) :=
  find st clock Arg.none n.

(** [FROM session_content JOIN sessions s ON s.session_id =
    session_content.session_id], over the index rows that matched. *)
Definition join_sessions (st : Store) (hits : list FtsHit)
  : list (Session * FtsHit) :=
  flat_map
    (fun h =>
       map (fun s => (s, h))
         (filter (fun s => Sql.str_eqb (session_id s) (hit_session_id h))
            (sessions st)))
    hits.

(** A statement whose LIMIT is 0 ends before the store reads a row or
    the index: it returns no row, whatever the MATCH expression. *)
Definition search (st : Store) (query : pystr) (limit : Z)
  : result (list Result) :=
  if (limit =? 0)%Z then Ok []
  else
    hits <- fts_match st (_escape_fts_query query) ;;
    let rows := Sql.limit limit (join_sessions st hits) in
    Ok (map (fun row => enrich st (fst row) (Some (hit_snippet (snd row)))) rows).

End SessionSearch.

(** ** Optional collaborators *)

(** A value of the dictionary returned by [stats]. *)
#[warnings="-register-all"]
Inductive pyvalue :=
| PyNone
| PyInt (n : Z)
| PyStr (s : pystr)
| PyDict (items : list (pystr * pyvalue)).

Definition pydict := list (pystr * pyvalue).

(** [SessionIndexer]: its [get_stats], run on the connection it is given. *)
Record Indexer := {
  get_stats : Store -> result pydict
}.

(** One exchange of the dictionary returned by [get_context]. *)
Record Exchange := {
  ex_timestamp : Sql.text;
  ex_user : pystr;
  ex_assistant : pystr
}.

(** The analyzer: [get_context(session_id, query=..., limit=...)], as the
    list under its [exchanges] key. *)
Record Analyzer := {
  get_context : pystr -> pystr -> Z -> result (list Exchange)
}.

(** What each of the three import paths tried for a collaborator finds;
    [None] is an [ImportError]. *)
Record Imports (A : Type) := {
  from_package : option A;      (* from session_index.<module> import ... *)
  from_relative : option A;     (* from .<module> import ... *)
  from_legacy : option A        (* from session_<module> import ... *)
}.

(** The nested [try: ... except ImportError: ...] chain. *)
Definition import_chain (A : Type) (i : Imports A) : option A :=
  match from_package i with
  | Some a => Some a
  | None =>
      match from_relative i with
      | Some a => Some a
      | None => from_legacy i
      end
  end.

Definition stats_unavailable : pydict :=
  [(lit "error", PyStr (lit "SessionIndexer not available"))].

Definition stats (indexers : Imports Indexer) (st : Store) : result pydict :=
  match import_chain indexers with
  | Some indexer => get_stats indexer st
  | None => Ok stats_unavailable
  end.

(** ** Formatting a result: [format_result] *)

Definition newline : codepoint := 10%N.

(** [sep.join(items)] *)
Fixpoint str_join (sep : pystr) (items : list pystr) : pystr :=
  match items with
  | [] => []
  | [t] => t
  | t :: ts => t ++ sep ++ str_join sep ts
  end.

Fixpoint starts_with (p s : pystr) : bool :=
  match p, s with
  | [], _ => true
  | _ :: _, [] => false
  | c :: p', d :: s' => (c =? d)%N && starts_with p' s'
  end.

(** [s.replace(old, new)] for a non-empty [old]: the occurrences of
    [old] found from left to right, without overlap, become [new]. *)
Fixpoint replace_loop (fuel : nat) (s old new : pystr) : pystr :=
  match fuel with
  | O => s
  | S fuel' =>
      match s with
      | [] => []
      | c :: tl =>
          if starts_with old s
          then new ++ replace_loop fuel' (skipn (length old) s) old new
          else c :: replace_loop fuel' tl old new
      end
  end.

Definition str_replace (s old new : pystr) : pystr :=
  replace_loop (length s) s old new.

(** [f"{n}"] for an [int]. *)
Definition str_of_int (n : Z) : pystr :=
  lit (NilZero.string_of_int (Z.to_int n)).

(** Truth of [r.get(key)] for a text and for an integer column: present,
    not NULL, and not empty or zero. *)
Definition truthy_text (x : Sql.text) : option pystr :=
  match x with
  | Some (c :: s) => Some (c :: s)
  | _ => None
  end.

Definition truthy_int (x : Sql.integer) : option Z :=
  match x with
  | Some n => if (n =? 0)%Z then None else Some n
  | None => None
  end.

(** [r.get('title_display') or r.get('title') or '(unnamed)'], shortened
    to 67 characters and an ellipsis when longer than 70. *)
Definition display_title (r : Result) : pystr :=
  let title :=
    match truthy_text (r_title_display r) with
    | Some t => t
    | None =>
        match truthy_text (r_title r) with
        | Some t => t
        | None => lit "(unnamed)"
        end
    end in
  if 70 <? length title then firstn 67 title ++ lit "..." else title.

(** [f"  <diamond> {sid} <dot> {title}"] *)
Definition title_line (r : Result) : pystr :=
  [32; 32; 9670; 32]%N ++ firstn 8 (r_session_id r)
  ++ [32; 183; 32]%N ++ display_title r.

(** [if v: meta.append(item(v))] *)
Definition meta_append (A : Type) (v : option A) (item : A -> pystr)
    (meta : list pystr) : list pystr :=
  match v with
  | Some a => meta ++ [item a]
  | None => meta
  end.

Definition format_meta (r : Result) : list pystr :=
  let meta := [] in
  let meta := meta_append (truthy_text (r_start_time r)) (fun t => firstn 10 t) meta in
  let meta := meta_append (truthy_text (r_project_name r)) (fun t => t) meta in
  let meta := meta_append (truthy_text (r_client r)) (fun t => t) meta in
  let meta :=
    meta_append (truthy_int (r_exchange_count r))
      (fun n => str_of_int n ++ lit " exchanges") meta in
  let meta :=
    meta_append (truthy_int (r_duration_minutes r))
      (fun n => str_of_int n ++ lit "min") meta in
  let meta :=
    meta_append (truthy_int (r_has_compaction r)) (fun _ => lit "compacted") meta in
  meta.

(** [snippet.replace('>>>', '').replace('<<<', '').replace('\n', ' ')[:120]] *)
Definition clean_snippet (snippet : pystr) : pystr :=
  firstn 120
    (str_replace
       (str_replace (str_replace snippet (lit ">>>") []) (lit "<<<") [])
       [newline] [space]).

(** The items handed to [join] must all be [str]: a NULL topic text is
    Python's [None], on which [join] raises a TypeError naming the
    position [i] of the item. *)
Fixpoint join_items (i : Z) (items : list Sql.text) : result (list pystr) :=
  match items with
  | [] => Ok []
  | Some s :: rest =>
      strs <- join_items (i + 1) rest ;;
      Ok (s :: strs)
  | None :: _ =>
      Raise (OtherError
               (lit "TypeError: sequence item " ++ str_of_int i
                ++ lit ": expected str instance, NoneType found"))
  end.

Definition resume_line (r : Result) : pystr :=
  [32; 32; 32; 32; 8594; 32]%N ++ lit "claude --resume " ++ r_session_id r.

(** The list [lines] at the end of [format_result]. *)
Definition format_lines (r : Result) (show_topics : bool)
  : result (list pystr) :=
  let lines := [title_line r] in
  let lines :=
    match format_meta r with
    | [] => lines
    | meta => lines ++ [lit "    " ++ str_join [32; 183; 32]%N meta]
    end in
  let lines :=
    match r_snippet r with
    | Some (Some (c :: s)) =>
        lines ++ [lit "    " ++ quote :: clean_snippet (c :: s) ++ [quote]]
    | _ => lines
    end in
  lines <-
    (if show_topics then
       match r_topics r with
       | [] => Ok lines
       | topics =>
           topic_strs <- join_items 0 (map brief_topic (firstn 5 topics)) ;;
           Ok (lines ++ [lit "    topics: " ++ str_join [32; 8594; 32]%N topic_strs])
       end
     else Ok lines) ;;
  let lines :=
    match truthy_text (r_tags r) with
    | Some t => lines ++ [lit "    [" ++ t ++ lit "]"]
    | None => lines
    end in
  Ok (lines ++ [resume_line r]).

Definition format_result (r : Result) (show_topics : bool) : result pystr :=
  lines <- format_lines r show_topics ;;
  Ok (str_join [newline] lines).

(** The result [r] with another list under its [topics] key. *)
Definition set_topics (r : Result) (topics : list TopicBrief) : Result :=
  {| r_session_id := r_session_id r;
     r_project_name := r_project_name r;
     r_title := r_title r;
     r_title_display := r_title_display r;
     r_client := r_client r;
     r_tags := r_tags r;
     r_exchange_count := r_exchange_count r;
     r_start_time := r_start_time r;
     r_duration_minutes := r_duration_minutes r;
     r_has_compaction := r_has_compaction r;
     r_snippet := r_snippet r;
     r_topics := topics |}.

(** ** The command line: [main] *)

(** What [main] prints.  A line is kept as its text, the text of
    [format_result] included; the heading of the search results, an
    exchange, the banner of a session and an entry of a timeline are kept
    as the values they render. *)
Inductive Printed :=
| Line (s : pystr)
| ResultsHeader (n : nat) (query : pystr)
| ExchangeBlock (e : Exchange)
| SessionBanner (s : Session)
| TimelineHeader (n : nat)
| TimelineEntry (t : TopicEntry).

Definition context_unavailable : pystr :=
  lit "    (context not available " ++ [8212%N] ++ lit " analyzer module not found)".

(** The body of [for r in results:] in the [search] command:
    [print(format_result(r))] first, then the context. *)
Fixpoint print_results (analyzers : Imports Analyzer) (query : pystr)
    (context : bool) (results : list Result) : result (list Printed) :=
  match results with
  | [] => Ok []
  | r :: results' =>
      text <- format_result r true ;;
      shown <-
        (if context then
           match import_chain analyzers with
           | None => Ok [Line context_unavailable; Line []]
           | Some analyzer =>
               exchanges <- get_context analyzer (r_session_id r) query 3 ;;
               Ok (map ExchangeBlock exchanges ++ [Line []])
           end
         else Ok [Line []]) ;;
      rest <- print_results analyzers query context results' ;;
      Ok (Line text :: shown ++ rest)
  end.

(** [main], command [search]. *)
Definition main_search (analyzers : Imports Analyzer) (st : Store)
    (query : pystr) (limit : Z) (context : bool) : result (list Printed) :=
  results <- SessionSearch.search st query limit ;;
  match results with
  | [] => Ok [Line (lit "No results for: " ++ query)]
  | _ =>
      body <- print_results analyzers query context results ;;
      Ok (ResultsHeader (length results) query :: body)
  end.

(** [for r in results: print(format_result(r)); print()], the loop of
    the [find] and [recent] commands. *)
Fixpoint print_formatted (results : list Result) : result (list Printed) :=
  match results with
  | [] => Ok []
  | r :: results' =>
      text <- format_result r true ;;
      rest <- print_formatted results' ;;
      Ok (Line text :: Line [] :: rest)
  end.

(** The outcome of the block [if len(sid) < 36: ...] of the [topics]
    command: the identifier to look up, or the early return after
    printing that no session was found. *)
Inductive Resolution :=
| Resolved (sid : pystr)
| NoSessionFound (sid : pystr).

Definition resolve_session_id (st : Store) (sid : pystr) : Resolution :=
  if length sid <? 36 then
    match
      Sql.fetchone
        (Sql.where_
           (fun s => Sql.like (Some (session_id s)) (SessionSearch.prefix_pattern sid))
           (sessions st))
    with
    | Some row => Resolved (session_id row)
    | None => NoSessionFound sid
    end
  else Resolved sid.

(** [SELECT ... FROM sessions WHERE session_id=?], [fetchone()] *)
Definition session_info (st : Store) (sid : pystr) : option Session :=
  Sql.fetchone
    (Sql.where_ (fun s => Some (Sql.str_eqb (session_id s) sid)) (sessions st)).

(** [for t in topics: ...]: the lines of each entry.  The format code
    [20s] applied to the source needs a [str]: on a NULL source it raises
    a TypeError. *)
Fixpoint print_timeline (timeline : list TopicEntry) : result (list Printed) :=
  match timeline with
  | [] => Ok []
  | t :: rest =>
      match entry_source t with
      | None =>
          Raise (OtherError
                   (lit "TypeError: unsupported format string passed to NoneType.__format__"))
      | Some _ =>
          more <- print_timeline rest ;;
          Ok (TimelineEntry t :: more)
      end
  end.

(** [main], command [topics]. *)
Definition main_topics (st : Store) (sid : pystr) : result (list Printed) :=
  match resolve_session_id st sid with
  | NoSessionFound sid' => Ok [Line (lit "No session found matching: " ++ sid')]
  | Resolved sid' =>
      match SessionSearch.topics st sid' with
      | [] => Ok [Line (lit "No topics recorded for session " ++ firstn 8 sid')]
      | timeline =>
          entries <- print_timeline timeline ;;
          Ok (match session_info st sid' with
              | Some s => [SessionBanner s]
              | None => []
              end
              ++ TimelineHeader (length timeline) :: entries)
      end
  end.

(** ** Reference definitions used in the statements *)

(** A character of an unquoted token: neither whitespace nor a quote. *)
Definition word_char (c : codepoint) : bool :=
  negb (isspace c) && negb (c =? quote)%N.

Fixpoint take_while (f : codepoint -> bool) (s : pystr) : pystr :=
  match s with
  | [] => []
  | c :: s' => if f c then c :: take_while f s' else []
  end.

(** The tokens of the rest of the input, read off the front of the list:
    what the loop of [tokenize] appends from position [i] on, when the
    list is [chars[i:]]. *)
Fixpoint lex (fuel : nat) (rest : pystr) : option (list pystr) :=
  match fuel with
  | O => None
  | S fuel' =>
      match rest with
      | [] => Some []
      | c :: tl =>
          if isspace c then lex fuel' tl
          else if (c =? quote)%N then
            match index_of quote tl with
            | None => Some [quote :: tl ++ [quote]]
            | Some k =>
                option_map (cons (quote :: firstn (S k) tl))
                  (lex fuel' (skipn (S k) tl))
            end
          else
            let w := take_while word_char rest in
            option_map (cons (quote :: w ++ [quote]))
              (lex fuel' (skipn (length w) rest))
      end
  end.

(** A token of the output: a quote-free body between two quotes. *)
Definition quoted (t : pystr) : Prop :=
  exists body, t = quote :: body ++ [quote] /\ ~ In quote body.

Definition count_quotes (s : pystr) : nat :=
  length (filter (fun c => (c =? quote)%N) s).

(** Every character of [s] is whitespace; true of the empty string. *)
Definition blank (s : pystr) : bool := forallb isspace s.

(** [p] is a prefix of [s], and [x] occurs in [s], up to ASCII case. *)
Fixpoint ci_prefix (p s : pystr) : bool :=
  match p, s with
  | [], _ => true
  | _ :: _, [] => false
  | c :: p', d :: s' => (Sql.lower c =? Sql.lower d)%N && ci_prefix p' s'
  end.

Fixpoint ci_contains (x s : pystr) : bool :=
  ci_prefix x s
  || match s with
     | [] => false
     | _ :: s' => ci_contains x s'
     end.

(** A text without the wildcards of [LIKE]. *)
Definition wildcard_free (x : pystr) : bool :=
  forallb (fun c => negb (c =? Sql.percent)%N && negb (c =? Sql.underscore)%N) x.

(** Both project labels of the session are present (not NULL). *)
Definition labelled (s : Session) : bool :=
  match project_name s, project s with
  | Some _, Some _ => true
  | _, _ => false
  end.

(** No import path finds the collaborator. *)
Definition absent (A : Type) : Imports A :=
  {| from_package := None; from_relative := None; from_legacy := None |}.

(** The test of the [project] criterion on one session. *)
Definition project_matches (x : pystr) (s : Session) : Sql.tv :=
  Sql.tv_or (Sql.like (project_name s) (SessionSearch.contains_pattern x))
            (Sql.like (project s) (SessionSearch.contains_pattern x)).

(** A full-text engine that, as FTS5 does, rejects the empty expression
    as a syntax error, and here matches nothing otherwise. *)
Definition strict_engine (e : pystr) : result (list FtsHit) :=
  match e with
  | [] => Raise (OperationalError (lit "fts5: syntax error near " ++ [quote; quote]))
  | _ => Ok []
  end.

(** The tokens of [rest], with the fuel of [tokens_of]. *)
Definition tokens (rest : pystr) : option (list pystr) :=
  lex (S (length rest)) rest.

(** An unquoted token ends at [tl]: at the end of the input, at
    whitespace or at a quote. *)
Definition token_end (tl : pystr) : Prop :=
  match tl with
  | [] => True
  | d :: _ => word_char d = false
  end.

(** The criteria with every falsy value replaced by an absent one. *)
Definition drop_falsy (c : Arg.Criteria) : Arg.Criteria :=
  {| Arg.client := SessionSearch.truthy_str (Arg.client c);
     Arg.tag := SessionSearch.truthy_str (Arg.tag c);
     Arg.tool := SessionSearch.truthy_str (Arg.tool c);
     Arg.agent := SessionSearch.truthy_str (Arg.agent c);
     Arg.date := SessionSearch.truthy_str (Arg.date c);
     Arg.week := Arg.week c;
     Arg.days := match Arg.days c with
                 | Some d => if (d =? 0)%Z then None else Some d
                 | None => None
                 end;
     Arg.project := SessionSearch.truthy_str (Arg.project c);
     Arg.exclude_project := SessionSearch.truthy_str (Arg.exclude_project c);
     Arg.has_compaction := Arg.has_compaction c |}.

(** ** A small store, for examples *)

Module Demo.

Definition session (sid : string) (name path : Sql.text) (start : string)
    (compacted : Z) : Session :=
  {| session_id := lit sid;
     project_name := name;
     project := path;
     title := Some (lit "untitled");
     title_display := None;
     client := None;
     tags := Some (lit "hook,search");
     exchange_count := Some 4%Z;
     start_time := Some (lit start);
     duration_minutes := Some 30%Z;
     has_compaction := Some compacted |}.

Definition alpha : Session :=
  session "aaaa1111" (Some (lit "Alpha")) (Some (lit "/work/alpha"))
    "2025-01-01T10:00:00" 0.

Definition beta : Session :=
  session "aaaa2222" (Some (lit "Beta")) (Some (lit "/work/beta"))
    "2025-01-03T09:00:00" 1.

Definition unlabelled : Session :=
  session "bbbb3333" None None "2025-01-02T12:00:00" 0.

(** Topic number [k] of a session, captured at time [k]. *)
Definition topic_at (sid : string) (k : nat) : Topic :=
  {| topic_session_id := lit sid;
     topic := Some (lit "topic " ++ [N.of_nat (65 + k)]);
     captured_at := Some (lit "2025-01-01T10:" ++ [N.of_nat (65 + k)]);
     exchange_number := Some (Z.of_nat k);
     source := Some (lit "hook") |}.

(** The engine of the demo store: FTS5's rejection of the empty
    expression, and one fixed hit for any other expression. *)
Definition engine (e : pystr) : result (list FtsHit) :=
  match strict_engine e with
  | Raise err => Raise err
  | Ok _ =>
      Ok [{| hit_session_id := lit "aaaa1111";
             hit_snippet := Some (lit "...>>>hook<<<...") |}]
  end.

(** Three sessions; twelve topics for the first, stored latest first. *)
Definition store : Store :=
  {| sessions := [alpha; beta; unlabelled];
     session_topics :=
       map (topic_at "aaaa1111") (rev (seq 0 12)) ++ [topic_at "aaaa2222" 0];
     session_tools := [];
     session_agents := [];
     fts_match := engine |}.

(** The same store without the session that has no project label. *)
Definition labelled : Store :=
  {| sessions := [alpha; beta];
     session_topics := session_topics store;
     session_tools := [];
     session_agents := [];
     fts_match := engine |}.

(** A clock stopped at one instant. *)
Definition clock : Clock :=
  {| days_ago := fun _ => Ok (lit "2025-01-02T00:00:00") |}.

End Demo.

(** ** Reference definitions for the sanitizer on plain words *)

(** A word between two double quotes, [f'"{token}"']. *)
Definition wrap (w : pystr) : pystr := quote :: w ++ [quote].

(** A non-empty run of token characters, and a non-empty run of
    whitespace. *)
Definition is_word (w : pystr) : bool :=
  match w with
  | [] => false
  | _ => forallb word_char w
  end.

Definition is_gap (g : pystr) : bool :=
  match g with
  | [] => false
  | _ => forallb isspace g
  end.

(** A first word followed by more words, each after its gap. *)
Definition spaced (first : pystr) (more : list (pystr * pystr)) : pystr :=
  first ++ concat (map (fun gw => fst gw ++ snd gw) more).

(** ** Reference definitions for the conditions of [find] *)

(** The condition a [str] criterion contributes: one when it is truthy. *)
Definition clause_of (v : option pystr) (clause : pystr -> Cond) : list Cond :=
  match SessionSearch.truthy_str v with
  | Some s => [clause s]
  | None => []
  end.

(** The condition the compaction flag contributes. *)
Definition compaction_clause (flag : option bool) : list Cond :=
  match flag with
  | Some b => [HasCompactionEq (if b then 1 else 0)%Z]
  | None => []
  end.

(** ** Tool usage: [tools_usage] *)

(** [dict(row)] of the query by tool name. *)
Record ToolSession := {
  ts_session_id : pystr;
  ts_title : Sql.text;
  ts_title_display : Sql.text;
  ts_start_time : Sql.text;
  ts_tool_name : Sql.text;
  ts_use_count : Sql.integer
}.

(** [dict(row)] of the grouped query. *)
Record ToolTotal := {
  tt_tool_name : Sql.text;
  tt_total : Sql.integer;
  tt_session_count : Z
}.

(** The list [tools_usage] returns holds rows of one of the two shapes. *)
Inductive ToolRows :=
| BySession (rows : list ToolSession)
| Totals (rows : list ToolTotal).

(** Order of [ORDER BY] on an INTEGER key: NULL sorts before every number. *)
Definition int_leb (a b : Sql.integer) : bool :=
  match a, b with
  | None, _ => true
  | Some _, None => false
  | Some x, Some y => (x <=? y)%Z
  end.

(** Equality of two keys of [GROUP BY]: NULLs fall into one group. *)
Definition text_eqb (a b : Sql.text) : bool :=
  match a, b with
  | None, None => true
  | Some x, Some y => Sql.str_eqb x y
  | _, _ => false
  end.

(** The distinct values of a list, in order of first appearance. *)
Fixpoint distinct (A : Type) (eqb : A -> A -> bool) (l : list A) : list A :=
  match l with
  | [] => []
  | x :: l' => x :: filter (fun y => negb (eqb x y)) (distinct eqb l')
  end.

(** The range of SQLite's INTEGER. *)
Definition int64_min : Z := (-9223372036854775808)%Z.
Definition int64_max : Z := 9223372036854775807%Z.

Definition in_int64 (n : Z) : bool :=
  ((int64_min <=? n) && (n <=? int64_max))%Z.

(** [SUM(x)] over integers: NULLs are skipped, the sum of no number is
    NULL, and the statement fails with an integer overflow as soon as the
    running sum leaves the range of INTEGER. *)
Fixpoint sum_from (acc : Sql.integer) (xs : list Sql.integer)
  : result Sql.integer :=
  match xs with
  | [] => Ok acc
  | None :: xs' => sum_from acc xs'
  | Some n :: xs' =>
      let total := match acc with None => n | Some a => (a + n)%Z end in
      if in_int64 total then sum_from (Some total) xs'
      else Raise (OperationalError (lit "integer overflow"))
  end.

Definition sql_sum (xs : list Sql.integer) : result Sql.integer :=
  sum_from None xs.

(** A fallible function applied to each element in turn: the values, or
    the first error. *)
Fixpoint collect (A B : Type) (f : A -> result B) (l : list A)
  : result (list B) :=
  match l with
  | [] => Ok []
  | a :: l' =>
      b <- f a ;;
      bs <- collect f l' ;;
      Ok (b :: bs)
  end.

(** [FROM session_tools st JOIN sessions s ON s.session_id = st.session_id] *)
Definition join_tools (st : Store) : list (ToolUse * Session) :=
  flat_map
    (fun u =>
       map (fun s => (u, s))
         (filter (fun s => Sql.str_eqb (session_id s) (tool_session_id u))
            (sessions st)))
    (session_tools st).

Definition tool_session (row : ToolUse * Session) : ToolSession :=
  {| ts_session_id := session_id (snd row);
     ts_title := title (snd row);
     ts_title_display := title_display (snd row);
     ts_start_time := start_time (snd row);
     ts_tool_name := tool_name (fst row);
     ts_use_count := use_count (fst row) |}.

(** The rows of [session_tools] in the group of the tool name [k]. *)
Definition tool_group (st : Store) (k : Sql.text) : list ToolUse :=
  filter (fun u => text_eqb (tool_name u) k) (session_tools st).

(** The row of one group: [tool_name, SUM(use_count), COUNT(DISTINCT
    session_id)]. *)
Definition tool_total (st : Store) (k : Sql.text) : result ToolTotal :=
  total <- sql_sum (map use_count (tool_group st k)) ;;
  Ok {| tt_tool_name := k;
        tt_total := total;
        tt_session_count :=
          Z.of_nat
            (length (distinct Sql.str_eqb (map tool_session_id (tool_group st k)))) |}.

(** [ORDER BY st.use_count DESC] and [ORDER BY total DESC] *)
Definition by_use_count_desc (a b : ToolUse * Session) : bool :=
  int_leb (use_count (fst b)) (use_count (fst a)).

Definition by_total_desc (a b : ToolTotal) : bool :=
  int_leb (tt_total b) (tt_total a).

(** The keys of [GROUP BY tool_name], from the last to the first in the
    order of [tool_name]: the order in which groups that tie under
    [ORDER BY total DESC] come out. *)
Definition tool_keys (st : Store) : list Sql.text :=
  Sql.order_by (fun a b => Sql.text_leb b a)
    (distinct text_eqb (map tool_name (session_tools st))).

(** [tools_usage(tool_name, limit)]; the argument is called [tool] here.
    In the grouped query a LIMIT of 0 ends the statement before a row is
    read, so before any sum; otherwise every group is summed before the
    rows are ordered and cut. *)
Definition tools_usage (st : Store) (tool : option pystr) (limit : Z)
  : result ToolRows :=
  match SessionSearch.truthy_str tool with
  | Some name =>
      Ok (BySession
            (map tool_session
               (Sql.limit limit
                  (Sql.order_by by_use_count_desc
                     (Sql.where_
                        (fun row =>
                           Sql.like (tool_name (fst row))
                             (SessionSearch.contains_pattern name))
                        (join_tools st))))))
  | None =>
      if (limit =? 0)%Z then Ok (Totals [])
      else
        totals <- collect (tool_total st) (tool_keys st) ;;
        Ok (Totals (Sql.limit limit (Sql.order_by by_total_desc totals)))
  end.

(** The number a NULL or an integer adds to a sum. *)
Definition count_of (x : Sql.integer) : Z :=
  match x with
  | Some n => n
  | None => 0%Z
  end.

Definition zsum (l : list Z) : Z := fold_right Z.add 0%Z l.

(** A store with tool usage rows, for examples. *)
Module DemoTools.

Definition used (sid tool : string) (n : Sql.integer) : ToolUse :=
  {| tool_session_id := lit sid; tool_name := Some (lit tool); use_count := n |}.

Definition store : Store :=
  {| sessions := sessions Demo.store;
     session_topics := [];
     session_tools :=
       [used "aaaa1111" "Read" (Some 2%Z);
        used "aaaa1111" "Bash" (Some 3%Z);
        used "aaaa2222" "Bash" (Some 5%Z);
        used "bbbb3333" "Read" None;
        used "aaaa1111" "Bash" (Some 1%Z)];
     session_agents := [];
     fts_match := Demo.engine |}.

End DemoTools.

(** ** The command line: the [find], [recent] and [stats] commands *)

(** The arguments of the [find] command as [argparse] leaves them: an
    option that is not given is [None], a flag that is not given is
    [False]. *)
Record FindArgs := {
  arg_client : option pystr;
  arg_tag : option pystr;
  arg_tool : option pystr;
  arg_agent : option pystr;
  arg_date : option pystr;
  arg_week : bool;
  arg_project : option pystr;
  arg_compacted : bool;
  arg_limit : Z
}.

(** The keyword arguments [main] passes to [find]. *)
Definition find_criteria (a : FindArgs) : Arg.Criteria :=
  {| Arg.client := arg_client a;
     Arg.tag := arg_tag a;
     Arg.tool := arg_tool a;
     Arg.agent := arg_agent a;
     Arg.date := arg_date a;
     Arg.week := arg_week a;
     Arg.days := None;
     Arg.project := arg_project a;
     Arg.exclude_project := None;
     Arg.has_compaction := if arg_compacted a then Some true else None |}.

(** [f"\n<clipboard> {n} sessions\n"] and [f"\n<clipboard> Last {n} sessions\n"] *)
Definition sessions_header (n : nat) : pystr :=
  [10; 128203; 32]%N ++ str_of_int (Z.of_nat n) ++ lit " sessions" ++ [10%N].

Definition recent_header (n : nat) : pystr :=
  [10; 128203; 32]%N ++ lit "Last " ++ str_of_int (Z.of_nat n)
  ++ lit " sessions" ++ [10%N].

(** [main], command [find]. *)
Definition main_find (st : Store) (clock : Clock) (a : FindArgs)
  : result (list Printed) :=
  results <- SessionSearch.find st clock (find_criteria a) (arg_limit a) ;;
  match results with
  | [] => Ok [Line (lit "No sessions match those filters.")]
  | _ =>
      body <- print_formatted results ;;
      Ok (Line (sessions_header (length results)) :: body)
  end.

(** [main], command [recent]. *)
Definition main_recent (st : Store) (clock : Clock) (n : Z)
  : result (list Printed) :=
  results <- SessionSearch.recent st clock n ;;
  body <- print_formatted results ;;
  Ok (Line (recent_header (length results)) :: body).

(** [format_result] of each result in turn, as the loops of [main] call
    it: the texts, or the first error. *)
Fixpoint format_all (results : list Result) : result (list pystr) :=
  match results with
  | [] => Ok []
  | r :: results' =>
      text <- format_result r true ;;
      texts <- format_all results' ;;
      Ok (text :: texts)
  end.

(** [d.get(key)] on a dictionary kept as a list of items. *)
Fixpoint dict_get (d : pydict) (key : pystr) : option pyvalue :=
  match d with
  | [] => None
  | (k, v) :: d' => if Sql.str_eqb k key then Some v else dict_get d' key
  end.

(** [d.get(key, default)] *)
Definition dict_get_default (d : pydict) (key : pystr) (default : pyvalue)
  : pyvalue :=
  match dict_get d key with
  | Some v => v
  | None => default
  end.

(** Truth of a value. *)
Definition py_truthy (v : pyvalue) : bool :=
  match v with
  | PyNone => false
  | PyInt n => negb (n =? 0)%Z
  | PyStr s => match s with [] => false | _ => true end
  | PyDict items => match items with [] => false | _ => true end
  end.

(** What the [stats] command prints: a line of fixed text, or a line
    that interpolates values of the dictionary, kept as the values. *)
Inductive StatsPrinted :=
| StatsText (s : pystr)
| StatsCount (label : pystr) (v : pyvalue)        (* the count line of that label, showing v *)
| StatsRange (earliest latest : pyvalue)           (* f"  Range:     {earliest} -> {latest}" *)
| StatsEntry (name : pystr) (count : Z).           (* f"  {name:25s}  {cnt:>5d}" *)

(** [value.get] and [value.items()] need a dictionary, and the format
    code [d] an integer. *)
Definition as_dict (v : pyvalue) : result pydict :=
  match v with
  | PyDict items => Ok items
  | _ => Raise (OtherError (lit "AttributeError"))
  end.

Fixpoint stats_entries (items : pydict) : result (list StatsPrinted) :=
  match items with
  | [] => Ok []
  | (name, PyInt n) :: rest =>
      more <- stats_entries rest ;;
      Ok (StatsEntry name n :: more)
  | (_, PyStr _) :: _ => Raise (OtherError (lit "ValueError"))
  | (_, _) :: _ => Raise (OtherError (lit "TypeError"))
  end.

(** One breakdown, [if stats.get(key): ...], with its two heading lines
    and at most ten entries. *)
Definition stats_breakdown (d : pydict) (key : pystr) (heading : pystr)
  : result (list StatsPrinted) :=
  match dict_get d key with
  | Some v =>
      if py_truthy v then
        items <- as_dict v ;;
        entries <- stats_entries (firstn 10 items) ;;
        Ok (StatsText heading :: StatsText (lit "  " ++ repeat 9472%N 36) :: entries)
      else Ok []
  | None => Ok []
  end.

(** [main], command [stats]. *)
Definition main_stats (indexers : Imports Indexer) (st : Store)
  : result (list StatsPrinted) :=
  d <- stats indexers st ;;
  let counts :=
    [StatsText ([10; 128202; 32]%N ++ lit "Database overview");
     StatsText (repeat 9552%N 40);
     StatsCount (lit "Sessions:") (dict_get_default d (lit "total_sessions") (PyInt 0));
     StatsCount (lit "Topics:") (dict_get_default d (lit "total_topics") (PyInt 0));
     StatsCount (lit "Tools:") (dict_get_default d (lit "total_tools") (PyInt 0));
     StatsCount (lit "Agents:") (dict_get_default d (lit "total_agents") (PyInt 0))] in
  dr <- as_dict (dict_get_default d (lit "date_range") (PyDict [])) ;;
  range <-
    (match dict_get dr (lit "earliest") with
     | Some earliest =>
         if py_truthy earliest then
           match dict_get dr (lit "latest") with
           | Some latest => Ok [StatsRange earliest latest]
           | None => Raise (OtherError (lit "KeyError: 'latest'"))
           end
         else Ok []
     | None => Ok []
     end) ;;
  projects <-
    stats_breakdown d (lit "by_project")
      ([10; 32; 32; 128193; 32]%N ++ lit "By project") ;;
  tools <-
    stats_breakdown d (lit "top_tools")
      ([10; 32; 32; 128295; 32]%N ++ lit "Top tools") ;;
  Ok (counts ++ range ++ projects ++ tools ++ [StatsText []]).

(** A result whose display title has 80 characters, for an example. *)
Definition long_titled : Result :=
  {| r_session_id := lit "aaaa1111"; r_project_name := None; r_title := None;
     r_title_display := Some (repeat 97%N 80); r_client := None; r_tags := None;
     r_exchange_count := None; r_start_time := None;
     r_duration_minutes := None; r_has_compaction := None;
     r_snippet := None; r_topics := [] |}.

(** * Properties *)

(** ** Lists, whitespace and stripping *)

Arguments isspace : simpl never.
Arguments word_char : simpl never.

Lemma isspace_quote : isspace quote = false.
Proof. reflexivity. Qed.

Lemma isspace_space : isspace space = true.
Proof. reflexivity. Qed.

Lemma word_char_quote : word_char quote = false.
Proof. reflexivity. Qed.

Lemma word_char_spec c :
  word_char c = true <-> isspace c = false /\ c <> quote.
Proof.
  unfold word_char. rewrite andb_true_iff, !negb_true_iff, N.eqb_neq. tauto.
Qed.

Lemma skipn_char_at (chars : pystr) i :
  i < length chars ->
  skipn i chars = char_at chars i :: skipn (S i) chars.
Proof.
  revert i. induction chars as [|c chars IH]; intros [|i] H; simpl in *; try lia.
  - reflexivity.
  - apply IH. lia.
Qed.

Lemma skipn_skipn_add (A : Type) (l : list A) i j :
  skipn j (skipn i l) = skipn (i + j) l.
Proof.
  revert l. induction i as [|i IH]; intros l; simpl.
  - reflexivity.
  - destruct l as [|x l]; simpl.
    + now rewrite skipn_nil.
    + apply IH.
Qed.

Lemma firstn_snoc_app (A : Type) (a : list A) x b :
  firstn (S (length a)) (a ++ x :: b) = a ++ [x].
Proof. induction a as [|y a IH]; simpl; [reflexivity | now f_equal]. Qed.

Lemma skipn_snoc_app (A : Type) (a : list A) x b :
  skipn (S (length a)) (a ++ x :: b) = b.
Proof. induction a as [|y a IH]; simpl; [reflexivity | exact IH]. Qed.

Lemma lstrip_app_stop a c b :
  isspace c = false -> lstrip (a ++ c :: b) = lstrip a ++ c :: b.
Proof.
  intros Hc. induction a as [|x a IH]; simpl.
  - now rewrite Hc.
  - destruct (isspace x); [exact IH | reflexivity].
Qed.

Lemma rstrip_app_stop a c b :
  isspace c = false -> rstrip (a ++ c :: b) = a ++ c :: rstrip b.
Proof.
  intros Hc. unfold rstrip.
  rewrite rev_app_distr. simpl. rewrite <- app_assoc. simpl.
  rewrite lstrip_app_stop by exact Hc.
  rewrite rev_app_distr. simpl. rewrite rev_involutive, <- app_assoc.
  reflexivity.
Qed.

Lemma lstrip_blank s : blank s = true -> lstrip s = [].
Proof.
  induction s as [|c s IH]; simpl; [reflexivity|].
  destruct (isspace c); simpl; [exact IH | discriminate].
Qed.

Lemma blank_rev s : blank (rev s) = blank s.
Proof.
  unfold blank. induction s as [|c s IH]; simpl; [reflexivity|].
  rewrite forallb_app, IH. simpl. rewrite andb_true_r. apply andb_comm.
Qed.

Lemma lstrip_suffix s : exists a, s = a ++ lstrip s /\ blank a = true.
Proof.
  induction s as [|c s (a & Ha & Hb)]; simpl.
  - now exists [].
  - destruct (isspace c) eqn:Hc.
    + exists (c :: a). simpl. rewrite Hc, Hb. split; [now f_equal | reflexivity].
    + now exists [].
Qed.

Lemma rstrip_prefix s : exists b, s = rstrip s ++ b /\ blank b = true.
Proof.
  unfold rstrip. destruct (lstrip_suffix (rev s)) as (a & Ha & Hb).
  exists (rev a). split.
  - rewrite <- rev_app_distr, <- Ha. now rewrite rev_involutive.
  - now rewrite blank_rev.
Qed.

Lemma strip_blank s : blank s = true -> strip s = [].
Proof.
  intros H. unfold strip. rewrite (lstrip_blank _ H). reflexivity.
Qed.

Lemma not_In_app_l (s a b : pystr) c : s = a ++ b -> ~ In c s -> ~ In c a.
Proof. intros -> H Hin. apply H, in_or_app. now left. Qed.

Lemma not_In_app_r (s a b : pystr) c : s = a ++ b -> ~ In c s -> ~ In c b.
Proof. intros -> H Hin. apply H, in_or_app. now right. Qed.

(** ** [str.find] *)

Lemma index_of_None c s : index_of c s = None <-> ~ In c s.
Proof.
  induction s as [|d s IH]; simpl.
  - tauto.
  - destruct (N.eqb_spec d c) as [->|Hne].
    + split; [discriminate | intros H; exfalso; apply H; now left].
    + destruct (index_of c s); simpl.
      * split; [discriminate|]. intros H. exfalso.
        assert (Hs : ~ In c s) by (intros Hin; apply H; now right).
        apply IH in Hs. discriminate.
      * split; [|reflexivity]. intros _ [Heq|Hin]; [congruence|].
        now apply IH.
Qed.

Lemma index_of_Some c s k :
  index_of c s = Some k ->
  exists a b, s = a ++ c :: b /\ length a = k /\ ~ In c a.
Proof.
  revert k. induction s as [|d s IH]; simpl; intros k H; [discriminate|].
  destruct (N.eqb_spec d c) as [->|Hne].
  - injection H as <-. exists [], s. simpl. tauto.
  - destruct (index_of c s) as [k'|]; simpl in H; [|discriminate].
    injection H as <-.
    destruct (IH k' eq_refl) as (a & b & -> & Hlen & Hnin).
    exists (d :: a), b. simpl. repeat split; [now f_equal|].
    intros [Heq|Hin]; [congruence | tauto].
Qed.

Lemma index_of_app c a b :
  ~ In c a -> index_of c (a ++ c :: b) = Some (length a).
Proof.
  induction a as [|d a IH]; simpl; intros H.
  - now rewrite N.eqb_refl.
  - destruct (N.eqb_spec d c) as [->|Hne]; [exfalso; apply H; now left|].
    rewrite IH; [reflexivity|]. intros Hin. apply H. now right.
Qed.

(** ** The loops and their list view *)

Lemma take_while_prefix f s :
  s = take_while f s ++ skipn (length (take_while f s)) s.
Proof.
  induction s as [|c s IH]; simpl; [reflexivity|].
  destruct (f c); simpl; [now f_equal | reflexivity].
Qed.

Lemma take_while_firstn f s :
  firstn (length (take_while f s)) s = take_while f s.
Proof.
  induction s as [|c s IH]; simpl; [reflexivity|].
  destruct (f c); simpl; [now f_equal | reflexivity].
Qed.

Lemma take_while_length f s : length (take_while f s) <= length s.
Proof.
  induction s as [|c s IH]; simpl; [lia|]. destruct (f c); simpl; lia.
Qed.

Lemma take_while_all f s : Forall (fun c => f c = true) (take_while f s).
Proof.
  induction s as [|c s IH]; simpl; [constructor|].
  destruct (f c) eqn:E; constructor; assumption.
Qed.

Lemma take_while_app_stop f a c b :
  f c = false -> Forall (fun x => f x = true) a ->
  take_while f (a ++ c :: b) = a.
Proof.
  intros Hc Ha. induction Ha as [|x a Hx _ IH]; simpl.
  - now rewrite Hc.
  - now rewrite Hx, IH.
Qed.

(** The inner loop stops right after the longest run of token characters. *)
Lemma scan_token_spec chars fuel i :
  i <= length chars -> length chars - i < fuel ->
  scan_token fuel chars i
  = Some (i + length (take_while word_char (skipn i chars))).
Proof.
  revert i. induction fuel as [|fuel IH]; intros i Hi Hf; [lia|].
  cbn [scan_token]. destruct (Nat.ltb_spec i (length chars)) as [Hlt|Hge].
  - rewrite (skipn_char_at chars Hlt).
    set (tl := skipn (S i) chars). cbn [take_while andb].
    fold (word_char (char_at chars i)).
    destruct (word_char (char_at chars i)) eqn:Hw.
    + rewrite IH by lia. fold tl. cbn [length]. f_equal. lia.
    + cbn [length]. f_equal. lia.
  - cbn [andb]. rewrite skipn_all2 by lia. cbn [take_while length]. f_equal. lia.
Qed.

(** The loop of [tokenize], started at [i], appends the tokens of
    [chars[i:]]. *)
Lemma tokenize_lex chars fuel i tokens :
  i <= length chars ->
  tokenize fuel chars i tokens
  = option_map (app tokens) (lex fuel (skipn i chars)).
Proof.
  revert i tokens. induction fuel as [|fuel IH]; intros i tokens Hi; [reflexivity|].
  cbn [tokenize]. destruct (Nat.ltb_spec i (length chars)) as [Hlt|Hge].
  - rewrite (skipn_char_at chars Hlt).
    set (c := char_at chars i). set (tl := skipn (S i) chars).
    cbn [lex].
    destruct (isspace c) eqn:Hsp.
    + apply IH. lia.
    + destruct (N.eqb_spec c quote) as [Hq|Hq].
      * unfold str_find. fold tl.
        destruct (index_of quote tl) as [k|] eqn:Hk; cbn [option_map].
        -- destruct (index_of_Some _ _ Hk) as (a & b & Htl & Hlen & _).
           assert (Hb : S k <= length tl).
           { rewrite Htl, length_app. cbn [length]. lia. }
           assert (Hl : length tl = length chars - S i).
           { unfold tl. apply length_skipn. }
           rewrite IH by lia.
           replace (skipn (S (S i + k)) chars) with (skipn (S k) tl).
           2:{ unfold tl. rewrite skipn_skipn_add. f_equal. lia. }
           unfold slice. replace (S (S i + k) - i) with (S (S k)) by lia.
           rewrite (skipn_char_at chars Hlt). fold c tl. rewrite Hq.
           cbn [firstn].
           destruct (lex fuel (skipn (S k) tl)); cbn [option_map]; [|reflexivity].
           now rewrite <- app_assoc.
        -- reflexivity.
      * rewrite scan_token_spec by lia.
        rewrite (skipn_char_at chars Hlt). fold c tl.
        set (w := take_while word_char (c :: tl)).
        assert (Hw : length w <= length (c :: tl)) by apply take_while_length.
        assert (Hl : length (c :: tl) = length chars - i).
        { unfold c, tl. rewrite <- (skipn_char_at chars Hlt). apply length_skipn. }
        rewrite IH by lia.
        replace (skipn (i + length w) chars) with (skipn (length w) (c :: tl)).
        2:{ unfold c, tl. rewrite <- (skipn_char_at chars Hlt).
            apply skipn_skipn_add. }
        unfold slice. replace (i + length w - i) with (length w) by lia.
        rewrite (skipn_char_at chars Hlt). fold c tl.
        replace (firstn (length w) (c :: tl)) with w
          by (symmetry; apply take_while_firstn).
        destruct (lex fuel (skipn (length w) (c :: tl))); cbn [option_map]; [|reflexivity].
        now rewrite <- app_assoc.
  - rewrite skipn_all2 by lia. destruct fuel; cbn [lex option_map]; now rewrite app_nil_r.
Qed.

(** Any fuel above the length of the input gives the same tokens. *)
Lemma lex_fuel f1 f2 rest :
  length rest < f1 -> length rest < f2 -> lex f1 rest = lex f2 rest.
Proof.
  revert f2 rest. induction f1 as [|f1 IH]; intros f2 rest H1 H2; [lia|].
  destruct f2 as [|f2]; [lia|].
  destruct rest as [|c tl]; [reflexivity|].
  cbn [lex]. cbn [length] in H1, H2.
  destruct (isspace c) eqn:Hsp.
  - apply IH; lia.
  - destruct (N.eqb_spec c quote) as [Hq|Hq].
    + destruct (index_of quote tl) as [k|]; [|reflexivity].
      f_equal. apply IH; rewrite length_skipn; lia.
    + assert (Hw : word_char c = true) by (now apply word_char_spec).
      cbn [take_while]. rewrite Hw. cbn [length skipn].
      f_equal. apply IH; rewrite length_skipn; lia.
Qed.

Lemma lex_tokens f rest : length rest < f -> lex f rest = tokens rest.
Proof. intros H. apply lex_fuel; [exact H | lia]. Qed.

(** The loop never runs out of the fuel it is given. *)
Lemma lex_total f rest : length rest < f -> exists toks, lex f rest = Some toks.
Proof.
  revert rest. induction f as [|f IH]; intros rest H; [lia|].
  destruct rest as [|c tl]; [now exists []|].
  cbn [lex]. cbn [length] in H.
  destruct (isspace c) eqn:Hsp.
  - apply IH; lia.
  - destruct (N.eqb_spec c quote) as [Hq|Hq].
    + destruct (index_of quote tl) as [k|]; [|eauto].
      destruct (IH (skipn (S k) tl)) as [toks ->]; [rewrite length_skipn; lia|].
      cbn [option_map]. eauto.
    + assert (Hw : word_char c = true) by (now apply word_char_spec).
      cbn [take_while]. rewrite Hw. cbn [length skipn].
      destruct (IH (skipn (length (take_while word_char tl)) tl)) as [toks ->];
        [rewrite length_skipn; lia|].
      cbn [option_map]. eauto.
Qed.

Lemma tokens_total rest : exists toks, tokens rest = Some toks.
Proof. apply lex_total. lia. Qed.

Lemma tokens_of_tokens chars : tokens_of chars = tokens chars.
Proof.
  unfold tokens_of, tokens. rewrite tokenize_lex by lia.
  cbn [skipn]. now destruct (lex _ chars).
Qed.

Lemma lex_step f c tl :
  lex (S f) (c :: tl)
  = if isspace c then lex f tl
    else if (c =? quote)%N then
      match index_of quote tl with
      | None => Some [quote :: tl ++ [quote]]
      | Some k =>
          option_map (cons (quote :: firstn (S k) tl)) (lex f (skipn (S k) tl))
      end
    else
      option_map (cons (quote :: take_while word_char (c :: tl) ++ [quote]))
        (lex f (skipn (length (take_while word_char (c :: tl))) (c :: tl))).
Proof. reflexivity. Qed.

(** The equations of [tokens], one for each branch of the loop. *)
Lemma tokens_nil : tokens [] = Some [].
Proof. reflexivity. Qed.

Lemma tokens_space c tl : isspace c = true -> tokens (c :: tl) = tokens tl.
Proof.
  intros H. unfold tokens at 1. cbn [length]. rewrite lex_step, H.
  apply lex_tokens. lia.
Qed.

Lemma tokens_open tl :
  ~ In quote tl -> tokens (quote :: tl) = Some [quote :: tl ++ [quote]].
Proof.
  intros H. unfold tokens. cbn [length].
  rewrite lex_step, isspace_quote, N.eqb_refl.
  apply index_of_None in H. now rewrite H.
Qed.

Lemma tokens_phrase body tl :
  ~ In quote body ->
  tokens (quote :: body ++ quote :: tl)
  = option_map (cons (quote :: body ++ [quote])) (tokens tl).
Proof.
  intros H. unfold tokens at 1. cbn [length].
  rewrite lex_step, isspace_quote, N.eqb_refl, (@index_of_app quote body (tl) H).
  rewrite firstn_snoc_app, skipn_snoc_app.
  f_equal. apply lex_tokens. rewrite length_app. cbn [length]. lia.
Qed.

Lemma tokens_word c tl :
  word_char c = true ->
  tokens (c :: tl)
  = option_map (cons (quote :: take_while word_char (c :: tl) ++ [quote]))
      (tokens (skipn (length (take_while word_char (c :: tl))) (c :: tl))).
Proof.
  intros Hw. destruct (proj1 (word_char_spec c) Hw) as [Hsp Hq].
  unfold tokens at 1. cbn [length]. rewrite lex_step, Hsp.
  destruct (N.eqb_spec c quote) as [|_]; [contradiction|].
  f_equal. apply lex_tokens.
  cbn [take_while]. rewrite Hw. cbn [length skipn]. rewrite length_skipn. lia.
Qed.

Lemma tokens_lstrip s : tokens (lstrip s) = tokens s.
Proof.
  induction s as [|c s IH]; cbn [lstrip]; [reflexivity|].
  destruct (isspace c) eqn:Hsp; [|reflexivity].
  now rewrite tokens_space.
Qed.

Lemma tokens_word_app w tl :
  w <> [] -> Forall (fun c => word_char c = true) w -> token_end tl ->
  tokens (w ++ tl) = option_map (cons (quote :: w ++ [quote])) (tokens tl).
Proof.
  intros Hne Hw Hend.
  assert (Htw : take_while word_char (w ++ tl) = w).
  { destruct tl as [|d tl].
    - rewrite app_nil_r. clear Hne. induction Hw as [|x w Hx _ IH]; simpl.
      + reflexivity.
      + now rewrite Hx, IH.
    - now apply take_while_app_stop. }
  destruct w as [|c w]; [contradiction|].
  inversion Hw as [|? ? Hc _]; subst.
  cbn [app]. rewrite tokens_word by exact Hc.
  change (c :: w ++ tl) with ((c :: w) ++ tl). rewrite Htw.
  now rewrite skipn_app, skipn_all, Nat.sub_diag.
Qed.

Lemma take_while_end f s :
  match skipn (length (take_while f s)) s with
  | [] => True
  | d :: _ => f d = false
  end.
Proof.
  induction s as [|c s IH]; simpl; [exact I|].
  destruct (f c) eqn:E; simpl; [exact IH | exact E].
Qed.

(** Induction over the run of the loop, one case for each branch. *)
Lemma tokens_ind (P : pystr -> list pystr -> Prop) :
  P [] [] ->
  (forall c tl toks,
      isspace c = true -> tokens tl = Some toks -> P tl toks ->
      P (c :: tl) toks) ->
  (forall tl, ~ In quote tl -> P (quote :: tl) [quote :: tl ++ [quote]]) ->
  (forall body tl toks,
      ~ In quote body -> tokens tl = Some toks -> P tl toks ->
      P (quote :: body ++ quote :: tl) ((quote :: body ++ [quote]) :: toks)) ->
  (forall w tl toks,
      w <> [] -> Forall (fun c => word_char c = true) w -> token_end tl ->
      tokens tl = Some toks -> P tl toks ->
      P (w ++ tl) ((quote :: w ++ [quote]) :: toks)) ->
  forall rest toks, tokens rest = Some toks -> P rest toks.
Proof.
  intros Hnil Hspace Hopen Hphrase Hword rest.
  remember (length rest) as n eqn:Hn. revert rest Hn.
  induction n as [n IH] using lt_wf_ind. intros rest Hn toks Ht.
  destruct rest as [|c tl].
  - rewrite tokens_nil in Ht. injection Ht as <-. exact Hnil.
  - cbn [length] in Hn. destruct (isspace c) eqn:Hsp.
    + rewrite tokens_space in Ht by exact Hsp.
      apply Hspace; [exact Hsp | exact Ht|].
      apply (IH (length tl)); [lia | reflexivity | exact Ht].
    + destruct (N.eqb_spec c quote) as [->|Hq].
      * destruct (index_of quote tl) as [k|] eqn:Hk.
        -- destruct (index_of_Some _ _ Hk) as (body & tl' & -> & _ & Hbody).
           rewrite tokens_phrase in Ht by exact Hbody.
           destruct (tokens tl') as [toks'|] eqn:Ht'; [|discriminate].
           injection Ht as <-.
           apply Hphrase; [exact Hbody | exact Ht'|].
           apply (IH (length tl')); [|reflexivity | exact Ht'].
           rewrite length_app in Hn. cbn [length] in Hn. lia.
        -- apply index_of_None in Hk.
           rewrite tokens_open in Ht by exact Hk. injection Ht as <-.
           now apply Hopen.
      * assert (Hw : word_char c = true) by (now apply word_char_spec).
        set (w := take_while word_char (c :: tl)).
        set (tl' := skipn (length w) (c :: tl)).
        assert (Hsplit : c :: tl = w ++ tl') by apply take_while_prefix.
        assert (Hne : w <> []).
        { unfold w. cbn [take_while]. rewrite Hw. discriminate. }
        assert (Hall : Forall (fun c => word_char c = true) w)
          by apply take_while_all.
        assert (Hend : token_end tl') by apply take_while_end.
        rewrite Hsplit in Ht |- *.
        rewrite tokens_word_app in Ht by assumption.
        destruct (tokens tl') as [toks'|] eqn:Ht'; [|discriminate].
        injection Ht as <-.
        apply Hword; try assumption.
        apply (IH (length tl')); [|reflexivity | exact Ht'].
        assert (Hl : length (c :: tl) = length w + length tl')
          by (rewrite Hsplit at 1; apply length_app).
        cbn [length] in Hl. destruct w; [contradiction|]. cbn [length] in Hl. lia.
Qed.

(** Every token the loop emits is a quote-free body between two quotes. *)
Lemma tokens_quoted rest toks : tokens rest = Some toks -> Forall quoted toks.
Proof.
  revert rest toks. apply tokens_ind.
  - constructor.
  - auto.
  - intros tl H. constructor; [|constructor]. now exists tl.
  - intros body tl toks H _ IH. constructor; [|exact IH]. now exists body.
  - intros w tl toks _ Hw _ _ IH. constructor; [|exact IH].
    exists w. split; [reflexivity|]. intros Hin.
    rewrite Forall_forall in Hw. apply Hw in Hin.
    rewrite word_char_quote in Hin. discriminate.
Qed.

(** ** The sanitizer on its own output *)

Lemma join_space_cons t t' ts :
  join_space (t :: t' :: ts) = t ++ space :: join_space (t' :: ts).
Proof. reflexivity. Qed.

(** Re-reading the joined tokens gives the same tokens back. *)
Lemma tokens_join toks :
  Forall quoted toks -> tokens (join_space toks) = Some toks.
Proof.
  induction 1 as [|t ts (body & -> & Hbody) Hts IH]; [reflexivity|].
  destruct ts as [|t' ts].
  - cbn [join_space]. rewrite tokens_phrase by exact Hbody. reflexivity.
  - rewrite join_space_cons. cbn [app]. rewrite <- app_assoc. cbn [app].
    rewrite tokens_phrase by exact Hbody.
    rewrite tokens_space by apply isspace_space.
    now rewrite IH.
Qed.

Lemma join_space_ends toks :
  toks <> [] -> Forall quoted toks ->
  exists m, join_space toks = quote :: m ++ [quote].
Proof.
  intros Hne H. induction H as [|t ts (body & -> & _) Hts IH]; [contradiction|].
  destruct ts as [|t' ts].
  - now exists body.
  - destruct IH as [m Hm]; [discriminate|].
    rewrite join_space_cons, Hm.
    exists (body ++ quote :: space :: quote :: m).
    cbn [app]. now rewrite <- !app_assoc.
Qed.

Lemma strip_between_quotes m :
  strip (quote :: m ++ [quote]) = quote :: m ++ [quote].
Proof.
  unfold strip. cbn [lstrip]. rewrite isspace_quote.
  change (quote :: m ++ [quote]) with ((quote :: m) ++ quote :: []).
  now rewrite rstrip_app_stop by apply isspace_quote.
Qed.

(** [_escape_fts_query] joins the tokens of the stripped input. *)
Lemma escape_join q :
  exists toks, tokens (strip q) = Some toks /\ _escape_fts_query q = join_space toks.
Proof.
  unfold _escape_fts_query. destruct q as [|c q].
  - exists []. split; reflexivity.
  - cbn [orb]. destruct (strip (c :: q)) as [|d chars] eqn:Hs.
    + exists []. split; reflexivity.
    + rewrite tokens_of_tokens.
      destruct (tokens_total (d :: chars)) as [toks Ht].
      exists toks. now rewrite Ht.
Qed.

Lemma escape_of_tokens q toks :
  tokens (strip q) = Some toks -> _escape_fts_query q = join_space toks.
Proof.
  intros H. destruct (escape_join q) as (toks' & H' & ->). congruence.
Qed.

Lemma escape_joined toks :
  Forall quoted toks -> _escape_fts_query (join_space toks) = join_space toks.
Proof.
  intros H. destruct toks as [|t ts]; [reflexivity|].
  destruct (@join_space_ends (t :: ts)) as [m Hm]; [discriminate | exact H|].
  apply escape_of_tokens.
  rewrite Hm, strip_between_quotes, <- Hm. now apply tokens_join.
Qed.

Lemma escape_blank q : blank q = true -> _escape_fts_query q = [].
Proof.
  intros H. unfold _escape_fts_query. rewrite (strip_blank _ H).
  now destruct q.
Qed.

(** ** An unterminated quote *)

Lemma count_quotes_cons c s :
  count_quotes (c :: s) = (if (c =? quote)%N then 1 else 0) + count_quotes s.
Proof. unfold count_quotes. simpl. now destruct (c =? quote)%N. Qed.

Lemma count_quotes_app a b :
  count_quotes (a ++ b) = count_quotes a + count_quotes b.
Proof. unfold count_quotes. now rewrite filter_app, length_app. Qed.

Lemma count_quotes_none s : ~ In quote s -> count_quotes s = 0.
Proof.
  induction s as [|c s IH]; intros H; [reflexivity|].
  rewrite count_quotes_cons, IH.
  - destruct (N.eqb_spec c quote) as [->|_]; [|reflexivity].
    exfalso. apply H. now left.
  - intros Hin. apply H. now right.
Qed.

Lemma word_chars_no_quote w :
  Forall (fun c => word_char c = true) w -> ~ In quote w.
Proof.
  intros Hw Hin. rewrite Forall_forall in Hw. apply Hw in Hin.
  rewrite word_char_quote in Hin. discriminate.
Qed.

Lemma token_end_app tl c r :
  word_char c = false -> token_end tl -> token_end (tl ++ c :: r).
Proof. intros Hc H. destruct tl; [exact Hc | exact H]. Qed.

(** After a prefix whose quotes are all closed, a quote with no quote
    after it opens the last token, which runs to the end of the input. *)
Lemma tokens_then_open r :
  ~ In quote r ->
  forall a toks,
    tokens a = Some toks -> Nat.even (count_quotes a) = true ->
    tokens (a ++ quote :: r) = Some (toks ++ [quote :: r ++ [quote]]).
Proof.
  intros Hr.
  apply (@tokens_ind (fun a toks =>
           Nat.even (count_quotes a) = true ->
           tokens (a ++ quote :: r) = Some (toks ++ [quote :: r ++ [quote]]))).
  - intros _. now apply tokens_open.
  - intros c tl toks Hsp _ IH Hev. cbn [app].
    rewrite tokens_space by exact Hsp. apply IH.
    rewrite count_quotes_cons in Hev.
    destruct (N.eqb_spec c quote) as [->|_]; [|exact Hev].
    rewrite isspace_quote in Hsp. discriminate.
  - intros tl Htl Hev. rewrite count_quotes_cons, N.eqb_refl in Hev.
    rewrite (count_quotes_none _ Htl) in Hev. discriminate.
  - intros body tl toks Hbody _ IH Hev.
    rewrite count_quotes_cons, N.eqb_refl, count_quotes_app in Hev.
    rewrite (count_quotes_none _ Hbody), count_quotes_cons, N.eqb_refl in Hev.
    cbn [app]. rewrite <- app_assoc. cbn [app].
    rewrite tokens_phrase by exact Hbody.
    rewrite IH by exact Hev. reflexivity.
  - intros w tl toks Hne Hw Hend _ IH Hev.
    rewrite count_quotes_app in Hev.
    rewrite (count_quotes_none _ (word_chars_no_quote Hw)) in Hev.
    rewrite <- app_assoc.
    rewrite tokens_word_app;
      [| exact Hne | exact Hw | now apply token_end_app; [apply word_char_quote|]].
    rewrite IH by exact Hev. reflexivity.
Qed.

Lemma count_quotes_lstrip s : count_quotes (lstrip s) = count_quotes s.
Proof.
  induction s as [|c s IH]; cbn [lstrip]; [reflexivity|].
  destruct (isspace c) eqn:Hsp; [|reflexivity].
  rewrite count_quotes_cons, IH.
  destruct (N.eqb_spec c quote) as [->|_]; [|reflexivity].
  rewrite isspace_quote in Hsp. discriminate.
Qed.

Lemma strip_around_quote pre rest :
  strip (pre ++ quote :: rest) = lstrip pre ++ quote :: rstrip rest.
Proof.
  unfold strip. rewrite lstrip_app_stop by apply isspace_quote.
  now rewrite rstrip_app_stop by apply isspace_quote.
Qed.

Lemma count_quotes_zero s : count_quotes s = 0 -> ~ In quote s.
Proof.
  induction s as [|c s IH]; intros H; [intros []|].
  rewrite count_quotes_cons in H.
  destruct (N.eqb_spec c quote) as [->|Hne]; [discriminate|].
  intros [Heq|Hin]; [congruence | now apply IH].
Qed.

Lemma rstrip_no_quote s : ~ In quote s -> ~ In quote (rstrip s).
Proof.
  intros H. destruct (rstrip_prefix s) as (b & Hb & _).
  eapply not_In_app_l; [exact Hb | exact H].
Qed.

(** The loop of the sanitizer returns for every input: its fuel is enough. *)
Lemma tokens_of_total chars : exists toks, tokens_of chars = Some toks.
Proof. rewrite tokens_of_tokens. apply tokens_total. Qed.

Example escape_dont_stop :
  _escape_fts_query (lit "don't stop")
  = quote :: lit "don't" ++ [quote; space; quote] ++ lit "stop" ++ [quote].
Proof. reflexivity. Qed.

(** An input with a quote splits at its last quote. *)
Lemma split_at_last_quote q :
  0 < count_quotes q ->
  exists pre rest,
    q = pre ++ quote :: rest
    /\ count_quotes rest = 0
    /\ count_quotes q = S (count_quotes pre).
Proof.
  induction q as [|c q IH]; intros H; [inversion H|].
  destruct (Nat.eq_dec (count_quotes q) 0) as [Hz|Hnz].
  - rewrite count_quotes_cons, Hz in H |- *.
    destruct (N.eqb_spec c quote) as [->|_]; [|lia].
    exists [], q. repeat split. exact Hz.
  - destruct IH as (pre & rest & -> & Hrest & Hcount); [lia|].
    exists (c :: pre), rest. split; [reflexivity|]. split; [exact Hrest|].
    rewrite !count_quotes_cons. rewrite Hcount. lia.
Qed.

(** C4.  An unterminated double quote does not make the sanitizer fail.
    An input with an odd number of quotes splits at its last quote into
    [pre], whose quotes are all closed, and [rest], which has none; the
    loop returns on the trimmed input, and its tokens are those of [pre]
    followed by one more token: the remainder of the trimmed input after
    the opening quote, wrapped in double quotes.  For the input made of
    the word find, a space, a double quote and the word unclosed, the
    output is the two words, each between double quotes, joined by one
    space. *)
Theorem C4_unterminated_quote :
  (forall query,
      Nat.odd (count_quotes query) = true ->
      exists pre rest toks,
        query = pre ++ quote :: rest
        /\ Nat.even (count_quotes pre) = true
        /\ count_quotes rest = 0
        /\ tokens_of pre = Some toks
        /\ tokens_of (strip query)
           = Some (toks ++ [quote :: rstrip rest ++ [quote]])
        /\ _escape_fts_query query
           = join_space (toks ++ [quote :: rstrip rest ++ [quote]]))
  /\ _escape_fts_query (lit "find " ++ quote :: lit "unclosed")
     = quote :: lit "find" ++ [quote; space; quote] ++ lit "unclosed" ++ [quote].
Proof.
  split; [|reflexivity].
  intros query Hodd.
  destruct (@split_at_last_quote query) as (pre & rest & -> & Hrest & Hcount).
  { destruct (count_quotes query); [discriminate | lia]. }
  assert (Hev : Nat.even (count_quotes pre) = true).
  { rewrite Hcount, Nat.odd_succ in Hodd. exact Hodd. }
  destruct (tokens_total pre) as [toks Ht]. exists pre, rest, toks.
  assert (Hopen : tokens (strip (pre ++ quote :: rest))
                  = Some (toks ++ [quote :: rstrip rest ++ [quote]])).
  { rewrite strip_around_quote. apply tokens_then_open.
    - apply rstrip_no_quote, count_quotes_zero, Hrest.
    - now rewrite tokens_lstrip.
    - now rewrite count_quotes_lstrip. }
  rewrite !tokens_of_tokens. repeat split; try assumption.
  now apply escape_of_tokens.
Qed.

Lemma C4_unterminated_quote_witness :
  Nat.odd (count_quotes (lit "find " ++ quote :: lit "unclosed")) = true /\
  exists pre rest toks,
    lit "find " ++ quote :: lit "unclosed" = pre ++ quote :: rest
    /\ count_quotes rest = 0
    /\ tokens_of pre = Some toks
    /\ _escape_fts_query (lit "find " ++ quote :: lit "unclosed")
       = join_space (toks ++ [quote :: rstrip rest ++ [quote]]).
Proof.
  split; [reflexivity|].
  destruct (proj1 C4_unterminated_quote (lit "find " ++ quote :: lit "unclosed"))
    as (pre & rest & toks & H1 & _ & H3 & H4 & _ & H6); [reflexivity|].
  exists pre, rest, toks. repeat split; assumption.
Defined.

(** C8.  The sanitizer is idempotent on quoted output.  A phrase already
    between double quotes is kept verbatim and not wrapped again, so
    the phrase hello world between double quotes sanitizes to itself; and
    for every raw input,
    sanitizing the output of the sanitizer returns that output. *)
Theorem C8_sanitizer_idempotent :
  (forall body,
      count_quotes body = 0 ->
      _escape_fts_query (quote :: body ++ [quote]) = quote :: body ++ [quote])
  /\ _escape_fts_query (quote :: lit "hello world" ++ [quote])
     = quote :: lit "hello world" ++ [quote]
  /\ forall query,
      _escape_fts_query (_escape_fts_query query) = _escape_fts_query query.
Proof.
  split; [|split].
  - intros body Hbody.
    apply (@escape_joined [quote :: body ++ [quote]]).
    constructor; [|constructor].
    exists body. split; [reflexivity | now apply count_quotes_zero].
  - reflexivity.
  - intros query. destruct (escape_join query) as (toks & Ht & ->).
    apply escape_joined. eapply tokens_quoted. exact Ht.
Qed.

Lemma C8_sanitizer_idempotent_witness :
  count_quotes (lit " a  b ") = 0 /\
  _escape_fts_query (quote :: lit " a  b " ++ [quote]) = quote :: lit " a  b " ++ [quote].
Proof.
  split; [reflexivity|].
  apply (proj1 C8_sanitizer_idempotent). reflexivity.
Defined.

(** ** The clauses of the store *)

Section ClauseFacts.
Variable Row : Type.
Variable leb : Row -> Row -> bool.

Lemma insert_by_perm x l : Permutation (Sql.insert_by leb x l) (x :: l).
Proof.
  induction l as [|y l IH]; simpl; [reflexivity|].
  destruct (leb x y); [reflexivity|].
  rewrite IH. apply perm_swap.
Qed.

Lemma order_by_perm l : Permutation (Sql.order_by leb l) l.
Proof.
  induction l as [|x l IH]; simpl; [reflexivity|].
  rewrite insert_by_perm. now constructor.
Qed.

Lemma order_by_length l : length (Sql.order_by leb l) = length l.
Proof. apply Permutation_length, order_by_perm. Qed.

Hypothesis leb_total : forall a b, leb a b = true \/ leb b a = true.
Hypothesis leb_trans :
  forall a b c, leb a b = true -> leb b c = true -> leb a c = true.

Lemma insert_by_sorted x l :
  StronglySorted (fun a b => leb a b = true) l ->
  StronglySorted (fun a b => leb a b = true) (Sql.insert_by leb x l).
Proof.
  induction 1 as [|y l Hs IH Hy]; simpl.
  - constructor; constructor.
  - destruct (leb x y) eqn:Hxy.
    + constructor; [now constructor|].
      constructor; [exact Hxy|].
      rewrite Forall_forall in Hy |- *. intros z Hz.
      apply leb_trans with y; auto.
    + constructor; [exact IH|].
      assert (Hyx : leb y x = true).
      { destruct (leb_total x y) as [H|H]; [congruence | exact H]. }
      rewrite Forall_forall in Hy |- *. intros z Hz.
      apply (Permutation_in _ (insert_by_perm x l)) in Hz.
      destruct Hz as [<-|Hz]; auto.
Qed.

Lemma order_by_sorted l :
  StronglySorted (fun a b => leb a b = true) (Sql.order_by leb l).
Proof.
  induction l as [|x l IH]; simpl; [constructor|].
  now apply insert_by_sorted.
Qed.
End ClauseFacts.

Lemma sorted_split (A : Type) (R : A -> A -> Prop) (l1 l2 : list A) :
  StronglySorted R (l1 ++ l2) ->
  forall a b, In a l1 -> In b l2 -> R a b.
Proof.
  induction l1 as [|x l1 IH]; simpl; intros Hs a b Ha Hb; [contradiction|].
  inversion Hs as [|? ? Hs' Hx]; subst.
  destruct Ha as [<-|Ha].
  - rewrite Forall_forall in Hx. apply Hx, in_or_app. now right.
  - now apply IH.
Qed.

Lemma where_all (Row : Type) (cond : Row -> Sql.tv) (rows : list Row) :
  (forall r, cond r = Some true) -> Sql.where_ cond rows = rows.
Proof.
  intros H. unfold Sql.where_. induction rows as [|r rows IH]; simpl.
  - reflexivity.
  - rewrite H. simpl. now f_equal.
Qed.

Lemma limit_length (Row : Type) (n : Z) (rows : list Row) :
  (0 <= n)%Z ->
  length (Sql.limit n rows) = Nat.min (Z.to_nat n) (length rows).
Proof.
  intros H. unfold Sql.limit.
  destruct (Z.ltb_spec n 0); [lia|]. apply length_firstn.
Qed.

Lemma limit_split (Row : Type) (n : Z) (rows : list Row) :
  exists dropped, Sql.limit n rows ++ dropped = rows.
Proof.
  unfold Sql.limit. destruct (n <? 0)%Z.
  - exists []. apply app_nil_r.
  - exists (skipn (Z.to_nat n) rows). apply firstn_skipn.
Qed.

Lemma limit_all (Row : Type) (n : Z) (rows : list Row) :
  (Z.of_nat (length rows) <= n)%Z -> Sql.limit n rows = rows.
Proof.
  intros H. unfold Sql.limit. destruct (n <? 0)%Z; [reflexivity|].
  apply firstn_all2. lia.
Qed.

Lemma str_compare_antisym a b :
  Sql.str_compare b a = CompOpp (Sql.str_compare a b).
Proof.
  revert b. induction a as [|c a IH]; intros [|d b]; simpl; try reflexivity.
  rewrite (N.compare_antisym c d).
  destruct (c ?= d)%N; simpl; auto.
Qed.

Lemma str_leb_total a b : Sql.str_leb a b = true \/ Sql.str_leb b a = true.
Proof.
  unfold Sql.str_leb. rewrite (str_compare_antisym a b).
  destruct (Sql.str_compare a b); simpl; auto.
Qed.

Lemma str_leb_trans a b c :
  Sql.str_leb a b = true -> Sql.str_leb b c = true -> Sql.str_leb a c = true.
Proof.
  unfold Sql.str_leb. revert b c.
  induction a as [|x a IH]; intros [|y b] [|z c]; simpl; try congruence.
  destruct (N.compare_spec x y), (N.compare_spec y z), (N.compare_spec x z);
    subst; try congruence; try lia; auto.
  apply IH.
Qed.

Lemma text_leb_total a b : Sql.text_leb a b = true \/ Sql.text_leb b a = true.
Proof.
  destruct a as [a|], b as [b|]; simpl; auto. apply str_leb_total.
Qed.

Lemma text_leb_trans a b c :
  Sql.text_leb a b = true -> Sql.text_leb b c = true -> Sql.text_leb a c = true.
Proof.
  destruct a as [a|], b as [b|], c as [c|]; simpl; try congruence.
  apply str_leb_trans.
Qed.

(** ** [find], [recent] and the enrichment *)

Import SessionSearch.

Lemma by_start_time_desc_total a b :
  by_start_time_desc a b = true \/ by_start_time_desc b a = true.
Proof. apply text_leb_total. Qed.

Lemma by_start_time_desc_trans a b c :
  by_start_time_desc a b = true -> by_start_time_desc b c = true ->
  by_start_time_desc a c = true.
Proof. unfold by_start_time_desc. intros H1 H2. now apply text_leb_trans with (start_time b). Qed.

Lemma by_captured_at_total a b :
  by_captured_at a b = true \/ by_captured_at b a = true.
Proof. apply text_leb_total. Qed.

Lemma by_captured_at_trans a b c :
  by_captured_at a b = true -> by_captured_at b c = true ->
  by_captured_at a c = true.
Proof. unfold by_captured_at. apply text_leb_trans. Qed.

Lemma find_conditions_none clock : find_conditions clock Arg.none = Ok [].
Proof. reflexivity. Qed.

Lemma find_none st clock limit :
  find st clock Arg.none limit
  = Ok (map (fun s => enrich st s None)
          (Sql.limit limit (Sql.order_by by_start_time_desc (sessions st)))).
Proof.
  unfold find, find_rows. rewrite find_conditions_none. cbn [bind where_of].
  now rewrite where_all by reflexivity.
Qed.

(** C5.  Called with no criterion, [find] builds no condition, so its
    filter is the one that matches every session; the rows are all the
    sessions ordered by start time descending and cut to the limit, 20 by
    default.  The rows kept are [min limit n] of the [n] sessions (exactly
    [limit] when there are more sessions than that), and none of the
    sessions left out starts later than one that is kept. *)
Theorem C5_find_without_criteria :
  forall st clock limit,
    (0 <= limit)%Z ->
    find_conditions clock Arg.none = Ok []
    /\ where_of [] = MatchAll
    /\ (forall s, eval_where st MatchAll s = Some true)
    /\ default_limit = 20%Z
    /\ exists kept dropped,
        find st clock Arg.none limit = Ok (map (fun s => enrich st s None) kept)
        /\ kept = firstn (Z.to_nat limit) (kept ++ dropped)
        /\ Permutation (kept ++ dropped) (sessions st)
        /\ StronglySorted
             (fun a b => Sql.text_leb (start_time b) (start_time a) = true)
             (kept ++ dropped)
        /\ length kept = Nat.min (Z.to_nat limit) (length (sessions st))
        /\ (Z.to_nat limit < length (sessions st) ->
            length kept = Z.to_nat limit)
        /\ forall k d,
            In k kept -> In d dropped ->
            Sql.text_leb (start_time d) (start_time k) = true.
Proof.
  intros st clock limit Hlimit.
  repeat (split; [reflexivity|]).
  set (sorted := Sql.order_by by_start_time_desc (sessions st)).
  assert (Hsorted : StronglySorted (fun a b => by_start_time_desc a b = true) sorted).
  { apply order_by_sorted.
    - apply by_start_time_desc_total.
    - apply by_start_time_desc_trans. }
  assert (Hlen : length sorted = length (sessions st)) by apply order_by_length.
  exists (firstn (Z.to_nat limit) sorted), (skipn (Z.to_nat limit) sorted).
  rewrite firstn_skipn.
  split.
  { rewrite find_none. unfold Sql.limit.
    destruct (Z.ltb_spec limit 0); [lia | reflexivity]. }
  split; [reflexivity|].
  split; [apply order_by_perm|].
  split; [exact Hsorted|].
  split; [rewrite length_firstn; lia|].
  split; [rewrite length_firstn; lia|].
  intros k d Hk Hd.
  rewrite <- (firstn_skipn (Z.to_nat limit) sorted) in Hsorted.
  exact (sorted_split _ _ Hsorted k d Hk Hd).
Qed.

Lemma C5_find_without_criteria_witness :
  (0 <= 2)%Z /\
  exists kept dropped,
    find Demo.store Demo.clock Arg.none 2
    = Ok (map (fun s => enrich Demo.store s None) kept)
    /\ Permutation (kept ++ dropped) (sessions Demo.store)
    /\ length kept = 2
    /\ forall k d,
        In k kept -> In d dropped ->
        Sql.text_leb (start_time d) (start_time k) = true.
Proof.
  split; [lia|].
  destruct (@C5_find_without_criteria Demo.store Demo.clock 2%Z)
    as (_ & _ & _ & _ & kept & dropped & Hfind & _ & Hperm & _ & _ & Hlen & Hlate);
    [lia|].
  exists kept, dropped. repeat split; try assumption.
  apply Hlen. vm_compute. lia.
Defined.

Example find_two_latest :
  find Demo.store Demo.clock Arg.none 2
  = Ok [enrich Demo.store Demo.beta None; enrich Demo.store Demo.unlabelled None].
Proof. reflexivity. Qed.

Lemma str_compare_eq a b : Sql.str_compare a b = Eq <-> a = b.
Proof.
  revert b. induction a as [|c a IH]; intros [|d b]; simpl;
    try (split; [discriminate | congruence]).
  - tauto.
  - destruct (N.compare_spec c d) as [->|H|H].
    + rewrite IH. split; congruence.
    + split; [discriminate|]. intros E. injection E as -> _. lia.
    + split; [discriminate|]. intros E. injection E as -> _. lia.
Qed.

Lemma str_eqb_eq a b : Sql.str_eqb a b = true <-> a = b.
Proof.
  unfold Sql.str_eqb. rewrite <- str_compare_eq.
  destruct (Sql.str_compare a b); split; congruence.
Qed.

Lemma get_topics_length st sid : length (_get_topics st sid) <= 10.
Proof.
  unfold _get_topics. rewrite length_map, limit_length by lia.
  change (Z.to_nat 10) with 10. lia.
Qed.

Lemma Forall2_map_l (A B : Type) (f : A -> B) (R : B -> A -> Prop) (l : list A) :
  (forall a, R (f a) a) -> Forall2 R (map f l) l.
Proof. intros H. induction l as [|a l IH]; cbn [map]; constructor; auto. Qed.

Lemma Forall2_brief_entry rows n :
  Forall2
    (fun b e => brief_topic b = entry_topic e /\ brief_source b = entry_source e)
    (map brief (firstn n rows)) (firstn n (map entry rows)).
Proof.
  revert n. induction rows as [|t rows IH]; intros [|n]; cbn [firstn map];
    constructor; [split; reflexivity | apply IH].
Qed.

Lemma sorted_captured rows :
  StronglySorted (fun a b => Sql.text_leb (captured_at a) (captured_at b) = true) rows ->
  StronglySorted
    (fun a b => Sql.text_leb (entry_captured_at a) (entry_captured_at b) = true)
    (map entry rows).
Proof.
  induction 1 as [|t rows _ IH Ht]; cbn [map]; constructor; [exact IH|].
  apply Forall_forall. intros e He. apply in_map_iff in He.
  destruct He as (t' & <- & Hin). rewrite Forall_forall in Ht.
  exact (Ht t' Hin).
Qed.

(** C6.  The [topics] operation returns one entry for each topic row of
    the session, every one of them, carrying the topic text, the capture
    time, the exchange number and the source of the row, and the entries
    are in ascending order of capture time.  The list [_get_topics]
    attaches is made from the first ten, at most, of those entries, in the
    same order, and each item keeps the topic text and the source label
    of its entry and nothing else.  The topic list of every result of
    [find] and of [search] is that of [_get_topics] for the session of
    the row, so it holds at most ten items. *)
Theorem C6_topics_capped_in_results :
  forall st,
    (forall sid,
        exists rows,
          Permutation rows
            (filter (fun t => Sql.str_eqb (topic_session_id t) sid)
               (session_topics st))
          /\ Forall2
               (fun e t =>
                  entry_topic e = topic t
                  /\ entry_captured_at e = captured_at t
                  /\ entry_exchange_number e = exchange_number t
                  /\ entry_source e = source t)
               (topics st sid) rows
          /\ StronglySorted
               (fun a b =>
                  Sql.text_leb (entry_captured_at a) (entry_captured_at b) = true)
               (topics st sid)
          /\ length (topics st sid)
             = length (filter (fun t => Sql.str_eqb (topic_session_id t) sid)
                         (session_topics st))
          /\ Forall2
               (fun b e =>
                  brief_topic b = entry_topic e
                  /\ brief_source b = entry_source e)
               (_get_topics st sid) (firstn 10 (topics st sid))
          /\ length (_get_topics st sid) = Nat.min 10 (length (topics st sid))
          /\ length (_get_topics st sid) <= 10)
    /\ (forall b : TopicBrief,
           b = {| brief_topic := brief_topic b; brief_source := brief_source b |})
    /\ (forall clock c limit results,
           find st clock c limit = Ok results ->
           Forall (fun r => r_topics r = _get_topics st (r_session_id r)
                            /\ length (r_topics r) <= 10) results)
    /\ (forall query limit results,
           search st query limit = Ok results ->
           Forall (fun r => r_topics r = _get_topics st (r_session_id r)
                            /\ length (r_topics r) <= 10) results).
Proof.
  intros st. split; [|split; [|split]].
  - intros sid.
    set (rows := Sql.order_by by_captured_at
                   (Sql.where_ (topic_of sid) (session_topics st))).
    assert (Hperm : Permutation rows
                      (filter (fun t => Sql.str_eqb (topic_session_id t) sid)
                         (session_topics st))).
    { unfold rows. rewrite order_by_perm. unfold Sql.where_.
      erewrite filter_ext; [reflexivity|].
      intros t. unfold topic_of. cbn [Sql.is_true].
      now destruct (Sql.str_eqb (topic_session_id t) sid). }
    assert (Hsorted : StronglySorted
                        (fun a b => Sql.text_leb (captured_at a) (captured_at b) = true)
                        rows).
    { apply (@order_by_sorted _ by_captured_at).
      - apply by_captured_at_total.
      - apply by_captured_at_trans. }
    assert (Htopics : topics st sid = map entry rows) by reflexivity.
    exists rows. split; [exact Hperm|].
    split.
    { rewrite Htopics. apply Forall2_map_l. intros t. repeat split. }
    split; [rewrite Htopics; now apply sorted_captured|].
    split.
    { rewrite Htopics, length_map. now apply Permutation_length. }
    split.
    { rewrite Htopics. unfold _get_topics. fold rows.
      unfold Sql.limit. cbn [Z.ltb Z.compare].
      change (Z.to_nat 10) with 10. apply Forall2_brief_entry. }
    split; [|apply get_topics_length].
    rewrite Htopics. unfold _get_topics. fold rows.
    rewrite !length_map, limit_length by lia. reflexivity.
  - intros [t src]. reflexivity.
  - intros clock c limit results H. unfold find in H.
    destruct (find_conditions clock c) as [conditions|e]; [|discriminate].
    cbn [bind] in H. injection H as <-.
    apply Forall_forall. intros r Hr. apply in_map_iff in Hr.
    destruct Hr as (s & <- & _). split; [reflexivity | apply get_topics_length].
  - intros query limit results H. unfold search in H.
    destruct (limit =? 0)%Z.
    { injection H as <-. constructor. }
    destruct (fts_match st (_escape_fts_query query)) as [hits|e]; [|discriminate].
    cbn [bind] in H. injection H as <-.
    apply Forall_forall. intros r Hr. apply in_map_iff in Hr.
    destruct Hr as (s & <- & _). split; [reflexivity | apply get_topics_length].
Qed.

Lemma C6_topics_capped_in_results_witness :
  exists results,
    find Demo.store Demo.clock Arg.none 20 = Ok results
    /\ Forall (fun r => r_topics r = _get_topics Demo.store (r_session_id r)
                        /\ length (r_topics r) <= 10) results
    /\ length (_get_topics Demo.store (lit "aaaa1111")) = 10
    /\ length (topics Demo.store (lit "aaaa1111")) = 12.
Proof.
  eexists. split; [reflexivity|].
  split; [|split; reflexivity].
  apply (proj1 (proj2 (proj2 (C6_topics_capped_in_results Demo.store)))
           Demo.clock Arg.none 20%Z).
  reflexivity.
Defined.

Example topics_of_first_session :
  map entry_captured_at (firstn 2 (topics Demo.store (lit "aaaa1111")))
  = [Some (lit "2025-01-01T10:A"); Some (lit "2025-01-01T10:B")]
  /\ map brief_topic (firstn 2 (_get_topics Demo.store (lit "aaaa1111")))
     = [Some (lit "topic A"); Some (lit "topic B")].
Proof. split; reflexivity. Qed.

(** C7.  For every count [n], [recent n] is [find] called with no
    criterion and the limit [n]: the first [n] sessions in descending
    order of start time, each enriched with its topics.  With three
    sessions started on three distinct days, [recent 2] is the two latest,
    the later one first. *)
Theorem C7_recent_is_find_without_criteria :
  forall st clock n,
    recent st clock n = find st clock Arg.none n
    /\ recent st clock n
       = Ok (map (fun s => enrich st s None)
               (Sql.limit n (Sql.order_by by_start_time_desc (sessions st))))
    /\ recent Demo.store clock 2
       = Ok [enrich Demo.store Demo.beta None;
             enrich Demo.store Demo.unlabelled None].
Proof.
  intros st clock n. split; [reflexivity|]. split.
  - unfold recent. apply find_none.
  - unfold recent. rewrite find_none. reflexivity.
Qed.

(** ** Falsy criteria *)

Lemma bind_ext (A B : Type) (m : result A) (k k' : A -> result B) :
  (forall a, k a = k' a) -> bind m k = bind m k'.
Proof. intros H. destruct m; simpl; [apply H | reflexivity]. Qed.

Lemma truthy_str_idem v : truthy_str (truthy_str v) = truthy_str v.
Proof. now destruct v as [[|c s]|]. Qed.

Lemma append_if_truthy v clause conditions :
  append_if (truthy_str v) clause conditions = append_if v clause conditions.
Proof. unfold append_if. now rewrite truthy_str_idem. Qed.

Lemma find_conditions_drop_falsy clock c :
  find_conditions clock (drop_falsy c) = find_conditions clock c.
Proof.
  destruct c as [cl tg tl ag dt wk ds pr ex hc].
  unfold find_conditions, drop_falsy.
  cbn [Arg.client Arg.tag Arg.tool Arg.agent Arg.date Arg.week Arg.days
       Arg.project Arg.exclude_project Arg.has_compaction].
  rewrite !append_if_truthy.
  apply bind_ext. intros conditions.
  assert (Hlast : forall l : list Cond,
             append_if (truthy_str ex)
               (fun v => NotProjectLike (contains_pattern v) (contains_pattern v)) l
             = append_if ex
                 (fun v => NotProjectLike (contains_pattern v) (contains_pattern v)) l)
    by (intros; apply append_if_truthy).
  destruct ds as [d|].
  - destruct (Z.eqb_spec d 0) as [->|Hd].
    + cbn [bind]. now rewrite Hlast.
    + rewrite (proj2 (Z.eqb_neq d 0) Hd).
      apply bind_ext. intros l. now rewrite Hlast.
  - cbn [bind]. now rewrite Hlast.
Qed.

(** C10.  In [find] a criterion whose value is falsy adds no condition:
    two calls whose criteria differ only in falsy values (an empty string
    for [client], [tag], [tool], [agent], [date], [project] or
    [exclude_project], [days=0], [week=False]) against absent ones build
    the same conditions and return the same result; in particular
    [find(days=0)] is [find()].  The compaction flag alone is tested
    against [None]: [has_compaction=False] adds the condition
    [s.has_compaction = 0], and the result differs from the one of the
    call that leaves it unset. *)
Theorem C10_falsy_criteria_are_absent :
  (forall clock c,
      find_conditions clock c = find_conditions clock (drop_falsy c))
  /\ (forall st clock c c' limit,
         drop_falsy c = drop_falsy c' ->
         find st clock c limit = find st clock c' limit)
  /\ (forall st clock limit,
         find st clock (Arg.only_days 0) limit = find st clock Arg.none limit)
  /\ (forall st clock limit,
         find st clock Arg.all_falsy limit = find st clock Arg.none limit)
  /\ (forall clock,
         find_conditions clock (Arg.only_has_compaction false)
         = Ok [HasCompactionEq 0]
         /\ find_conditions clock Arg.none = Ok [])
  /\ find Demo.store Demo.clock (Arg.only_has_compaction false) 20
     <> find Demo.store Demo.clock Arg.none 20.
Proof.
  assert (Hsame : forall st clock c c' limit,
             drop_falsy c = drop_falsy c' ->
             find st clock c limit = find st clock c' limit).
  { intros st clock c c' limit H. unfold find.
    rewrite <- (find_conditions_drop_falsy clock c).
    rewrite <- (find_conditions_drop_falsy clock c'). now rewrite H. }
  split; [intros; symmetry; apply find_conditions_drop_falsy|].
  split; [exact Hsame|].
  split; [intros; now apply Hsame|].
  split; [intros; now apply Hsame|].
  split; [intros; split; reflexivity|].
  intros H.
  apply (f_equal (fun r => match r with Ok l => length l | Raise _ => 0 end)) in H.
  vm_compute in H. discriminate.
Qed.

Lemma C10_falsy_criteria_are_absent_witness :
  drop_falsy Arg.all_falsy = drop_falsy Arg.none /\
  find Demo.store Demo.clock Arg.all_falsy 20
  = find Demo.store Demo.clock Arg.none 20.
Proof.
  split; [reflexivity|].
  apply (proj1 (proj2 C10_falsy_criteria_are_absent)). reflexivity.
Defined.

(** ** [LIKE] with the patterns of the code *)

Lemma like_percent p s :
  Sql.like_match (Sql.percent :: p) s
  = Sql.like_match p s
    || match s with
       | [] => false
       | _ :: s' => Sql.like_match (Sql.percent :: p) s'
       end.
Proof. destruct s; reflexivity. Qed.

Lemma like_literal c p s :
  (c =? Sql.percent)%N = false ->
  Sql.like_match (c :: p) s
  = match s with
    | [] => false
    | d :: s' =>
        ((c =? Sql.underscore)%N || (Sql.lower c =? Sql.lower d)%N)
        && Sql.like_match p s'
    end.
Proof. intros H. cbn [Sql.like_match]. now rewrite H. Qed.

Lemma like_percent_only s : Sql.like_match [Sql.percent] s = true.
Proof.
  induction s as [|c s IH]; [reflexivity|].
  rewrite like_percent, IH. apply orb_true_r.
Qed.

(** Without wildcards in [x], the pattern [x%] is a prefix test and the
    pattern [%x%] a containment test, both up to ASCII case. *)
Lemma like_prefix x s :
  wildcard_free x = true ->
  Sql.like_match (prefix_pattern x) s = ci_prefix x s.
Proof.
  unfold prefix_pattern. revert s.
  induction x as [|c x IH]; intros s H.
  - apply like_percent_only.
  - cbn [wildcard_free forallb] in H.
    apply andb_true_iff in H. destruct H as [Hc Hx].
    apply andb_true_iff in Hc. destruct Hc as [Hp Hu].
    apply negb_true_iff in Hp, Hu.
    cbn [app]. rewrite like_literal by exact Hp. rewrite Hu.
    destruct s as [|d s]; [reflexivity|].
    cbn [ci_prefix orb]. now rewrite IH.
Qed.

Lemma like_contains x s :
  wildcard_free x = true ->
  Sql.like_match (contains_pattern x) s = ci_contains x s.
Proof.
  intros H. unfold contains_pattern.
  induction s as [|d s IH].
  - rewrite like_percent. fold (prefix_pattern x). rewrite like_prefix by exact H.
    cbn [ci_contains]. reflexivity.
  - rewrite like_percent, IH. fold (prefix_pattern x).
    rewrite like_prefix by exact H. reflexivity.
Qed.

(** ** The project criterion and its exclusion *)

Lemma tv_and_true_l v : Sql.tv_and (Some true) v = v.
Proof. now destruct v as [[|]|]. Qed.

Lemma eval_project st x s :
  eval_where st (AllOf [ProjectLike (contains_pattern x) (contains_pattern x)]) s
  = project_matches x s.
Proof. cbn [eval_where fold_left eval_cond]. apply tv_and_true_l. Qed.

Lemma eval_exclude_project st x s :
  eval_where st (AllOf [NotProjectLike (contains_pattern x) (contains_pattern x)]) s
  = Sql.tv_not (project_matches x s).
Proof. cbn [eval_where fold_left eval_cond]. apply tv_and_true_l. Qed.

Lemma labelled_decided x s :
  labelled s = true ->
  exists name path,
    project_name s = Some name /\ project s = Some path
    /\ project_matches x s
       = Some (Sql.like_match (contains_pattern x) name
               || Sql.like_match (contains_pattern x) path).
Proof.
  unfold labelled, project_matches.
  destruct (project_name s) as [name|]; [|discriminate].
  destruct (project s) as [path|]; [|discriminate].
  intros _. exists name, path. repeat split. cbn [Sql.like option_map].
  now destruct (Sql.like_match _ name), (Sql.like_match _ path).
Qed.

Lemma filter_complement (A : Type) (f g : A -> bool) (l : list A) :
  Forall (fun a => g a = negb (f a)) l ->
  Permutation (filter f l ++ filter g l) l.
Proof.
  induction 1 as [|a l Ha _ IH]; simpl; [reflexivity|].
  rewrite Ha. destruct (f a); simpl.
  - now constructor.
  - rewrite <- Permutation_middle. now constructor.
Qed.

Lemma filter_length_bound (A : Type) (f : A -> bool) (l : list A) :
  length (filter f l) <= length l.
Proof. induction l as [|a l IH]; simpl; [lia|]. destruct (f a); simpl; lia. Qed.

Lemma find_rows_all st w limit :
  (Z.of_nat (length (sessions st)) <= limit)%Z ->
  find_rows st w limit
  = Sql.order_by by_start_time_desc (Sql.where_ (eval_where st w) (sessions st)).
Proof.
  intros H. unfold find_rows. apply limit_all.
  rewrite order_by_length. unfold Sql.where_.
  pose proof (filter_length_bound (fun r => Sql.is_true (eval_where st w r)) (sessions st)).
  lia.
Qed.

Lemma find_only_project st clock x limit :
  0 < length x ->
  find st clock (Arg.only_project x) limit
  = Ok (map (fun s => enrich st s None)
          (find_rows st
             (AllOf [ProjectLike (contains_pattern x) (contains_pattern x)]) limit)).
Proof. destruct x; simpl; [lia | reflexivity]. Qed.

Lemma find_only_exclude_project st clock x limit :
  0 < length x ->
  find st clock (Arg.only_exclude_project x) limit
  = Ok (map (fun s => enrich st s None)
          (find_rows st
             (AllOf [NotProjectLike (contains_pattern x) (contains_pattern x)]) limit)).
Proof. destruct x; simpl; [lia | reflexivity]. Qed.

(** C2, as the code has it.  For a non-empty [x], a store whose sessions
    all have both project labels, and a limit of at least the number of
    sessions: the results of [find(project=x)] and of
    [find(exclude_project=x)] together hold every session exactly once.
    The first holds the sessions one of whose two labels matches the
    pattern [%x%] of LIKE, the second those for which neither does; when
    [x] has no wildcard of LIKE, matching the pattern is containing [x] up
    to ASCII case. *)
Theorem C2_project_partition :
  forall st clock x limit,
    0 < length x ->
    forallb labelled (sessions st) = true ->
    (Z.of_nat (length (sessions st)) <= limit)%Z ->
    exists included excluded,
      find st clock (Arg.only_project x) limit
      = Ok (map (fun s => enrich st s None) included)
      /\ find st clock (Arg.only_exclude_project x) limit
         = Ok (map (fun s => enrich st s None) excluded)
      /\ Permutation (included ++ excluded) (sessions st)
      /\ Forall (fun s => project_matches x s = Some true) included
      /\ Forall (fun s => project_matches x s = Some false) excluded
      /\ (wildcard_free x = true ->
          forall s name path,
            project_name s = Some name -> project s = Some path ->
            project_matches x s
            = Some (ci_contains x name || ci_contains x path)).
Proof.
  intros st clock x limit Hx Hlab Hlimit.
  set (yes := AllOf [ProjectLike (contains_pattern x) (contains_pattern x)]).
  set (no := AllOf [NotProjectLike (contains_pattern x) (contains_pattern x)]).
  exists (Sql.order_by by_start_time_desc (Sql.where_ (eval_where st yes) (sessions st))),
         (Sql.order_by by_start_time_desc (Sql.where_ (eval_where st no) (sessions st))).
  split; [rewrite find_only_project, find_rows_all by assumption; reflexivity|].
  split; [rewrite find_only_exclude_project, find_rows_all by assumption; reflexivity|].
  split.
  { rewrite !order_by_perm. unfold Sql.where_. apply filter_complement.
    rewrite forallb_forall in Hlab. apply Forall_forall. intros s Hs.
    unfold yes, no. rewrite eval_project, eval_exclude_project.
    destruct (labelled_decided x s (Hlab s Hs)) as (name & path & _ & _ & ->).
    cbn [Sql.tv_not option_map Sql.is_true].
    now destruct (_ || _). }
  split.
  { apply Forall_forall. intros s Hs.
    apply (Permutation_in _ (order_by_perm _ _)) in Hs.
    apply filter_In in Hs. destruct Hs as [_ Hs].
    unfold yes in Hs. rewrite eval_project in Hs.
    now destruct (project_matches x s) as [[|]|]. }
  split.
  { apply Forall_forall. intros s Hs.
    apply (Permutation_in _ (order_by_perm _ _)) in Hs.
    apply filter_In in Hs. destruct Hs as [_ Hs].
    unfold no in Hs. rewrite eval_exclude_project in Hs.
    now destruct (project_matches x s) as [[|]|]. }
  intros Hw s name path Hname Hpath.
  unfold project_matches. rewrite Hname, Hpath. cbn [Sql.like option_map].
  rewrite !like_contains by exact Hw.
  now destruct (ci_contains x name), (ci_contains x path).
Qed.

Lemma C2_project_partition_witness :
  0 < length (lit "ALPHA") /\
  forallb labelled (sessions Demo.labelled) = true /\
  (Z.of_nat (length (sessions Demo.labelled)) <= 20)%Z /\
  exists included excluded,
    find Demo.labelled Demo.clock (Arg.only_project (lit "ALPHA")) 20
    = Ok (map (fun s => enrich Demo.labelled s None) included)
    /\ find Demo.labelled Demo.clock (Arg.only_exclude_project (lit "ALPHA")) 20
       = Ok (map (fun s => enrich Demo.labelled s None) excluded)
    /\ Permutation (included ++ excluded) (sessions Demo.labelled).
Proof.
  split; [vm_compute; lia|]. split; [reflexivity|]. split; [vm_compute; discriminate|].
  destruct (@C2_project_partition Demo.labelled Demo.clock (lit "ALPHA") 20%Z)
    as (included & excluded & H1 & H2 & H3 & _);
    [vm_compute; lia | reflexivity | vm_compute; discriminate|].
  now exists included, excluded.
Defined.

(** The claim as stated fails for the empty string: it is falsy, so both
    calls build no condition and both return every session. *)
Lemma C2_empty_substring_counterexample :
  let everything :=
    map (fun s => enrich Demo.labelled s None) [Demo.beta; Demo.alpha] in
  (Z.of_nat (length (sessions Demo.labelled)) <= 20)%Z
  /\ find Demo.labelled Demo.clock (Arg.only_project []) 20 = Ok everything
  /\ find Demo.labelled Demo.clock (Arg.only_exclude_project []) 20 = Ok everything
  /\ ~ Permutation (everything ++ everything)
         (map (fun s => enrich Demo.labelled s None) (sessions Demo.labelled)).
Proof.
  cbv zeta. split; [vm_compute; discriminate|].
  split; [reflexivity|]. split; [reflexivity|].
  intros H. apply Permutation_length in H. vm_compute in H. discriminate.
Qed.

(** A session without project labels is in neither result, and a
    wildcard in [x] matches where [x] is not contained. *)
Example unlabelled_session_in_neither :
  find Demo.store Demo.clock (Arg.only_project (lit "alpha")) 20
  = Ok [enrich Demo.store Demo.alpha None]
  /\ find Demo.store Demo.clock (Arg.only_exclude_project (lit "alpha")) 20
     = Ok [enrich Demo.store Demo.beta None].
Proof. split; reflexivity. Qed.

Example wildcard_matches_without_containment :
  project_matches (lit "l_h") Demo.alpha = Some true
  /\ ci_contains (lit "l_h") (lit "Alpha") = false
  /\ ci_contains (lit "l_h") (lit "/work/alpha") = false.
Proof. repeat split; reflexivity. Qed.

(** ** An empty query *)

(** C1, as the code has it.  For an input that is empty or all
    whitespace the sanitizer returns the empty string, and [search] hands
    that empty string to the engine as the MATCH expression: for a limit
    other than 0 it returns the rows the engine matches for it, enriched,
    and raises the error the engine raises for it; so does the [search]
    command.  With the limit 0 the store returns no row without reading
    the expression. *)
Theorem C1_blank_query_reaches_engine :
  forall st query limit,
    blank query = true ->
    _escape_fts_query query = []
    /\ search st query 0 = Ok []
    /\ (limit <> 0%Z ->
        search st query limit
        = (hits <- fts_match st [] ;;
           Ok (map (fun row => enrich st (fst row) (Some (hit_snippet (snd row))))
                 (Sql.limit limit (join_sessions st hits))))
        /\ forall e,
            fts_match st [] = Raise e ->
            search st query limit = Raise e
            /\ forall analyzers context,
                main_search analyzers st query limit context = Raise e).
Proof.
  intros st query limit Hblank.
  assert (He : _escape_fts_query query = []) by now apply escape_blank.
  split; [exact He|]. split; [reflexivity|].
  intros Hlimit.
  assert (Hs : search st query limit
               = (hits <- fts_match st [] ;;
                  Ok (map (fun row => enrich st (fst row) (Some (hit_snippet (snd row))))
                        (Sql.limit limit (join_sessions st hits))))).
  { unfold search. rewrite (proj2 (Z.eqb_neq limit 0) Hlimit), He. reflexivity. }
  split; [exact Hs|].
  intros e Hraise.
  assert (Hr : search st query limit = Raise e) by (rewrite Hs, Hraise; reflexivity).
  split; [exact Hr|]. intros analyzers context.
  unfold main_search. now rewrite Hr.
Qed.

Lemma C1_blank_query_reaches_engine_witness :
  blank (lit "   ") = true /\
  (20 <> 0)%Z /\
  _escape_fts_query (lit "   ") = [] /\
  search Demo.store (lit "   ") 20
  = (hits <- fts_match Demo.store [] ;;
     Ok (map (fun row => enrich Demo.store (fst row) (Some (hit_snippet (snd row))))
           (Sql.limit 20 (join_sessions Demo.store hits)))).
Proof.
  split; [reflexivity|]. split; [lia|].
  destruct (@C1_blank_query_reaches_engine Demo.store (lit "   ") 20%Z)
    as (H1 & _ & H2); [reflexivity|].
  split; [exact H1|]. apply (proj1 (H2 ltac:(lia))).
Defined.

(** The claim as stated fails on an engine that rejects the empty MATCH
    expression, as FTS5 does: the error reaches the caller of [search]. *)
Lemma C1_blank_query_counterexample :
  blank (lit "   ") = true
  /\ fts_match Demo.store [] = strict_engine []
  /\ search Demo.store (lit "   ") 20
     = Raise (OperationalError (lit "fts5: syntax error near " ++ [quote; quote]))
  /\ main_search (absent Analyzer) Demo.store (lit "   ") 20 false
     = Raise (OperationalError (lit "fts5: syntax error near " ++ [quote; quote])).
Proof. repeat split; reflexivity. Qed.

(** ** Resolving a shortened session identifier *)

Lemma resolve_first_match st sid before s after :
  length sid < 36 ->
  sessions st = before ++ s :: after ->
  Sql.like_match (prefix_pattern sid) (session_id s) = true ->
  forallb (fun b => negb (Sql.like_match (prefix_pattern sid) (session_id b)))
    before = true ->
  resolve_session_id st sid = Resolved (session_id s).
Proof.
  intros Hlen Hsplit Hs Hbefore. unfold resolve_session_id.
  destruct (Nat.ltb_spec (length sid) 36); [|lia].
  rewrite Hsplit. unfold Sql.where_, Sql.fetchone.
  clear Hsplit. induction before as [|b before IH]; cbn [app filter].
  - cbn [Sql.like option_map Sql.is_true]. now rewrite Hs.
  - cbn [forallb] in Hbefore. apply andb_true_iff in Hbefore.
    destruct Hbefore as [Hb Hrest]. apply negb_true_iff in Hb.
    cbn [Sql.like option_map Sql.is_true]. rewrite Hb. now apply IH.
Qed.

Lemma resolve_no_match st sid :
  length sid < 36 ->
  forallb (fun b => negb (Sql.like_match (prefix_pattern sid) (session_id b)))
    (sessions st) = true ->
  resolve_session_id st sid = NoSessionFound sid.
Proof.
  intros Hlen Hnone. unfold resolve_session_id.
  destruct (Nat.ltb_spec (length sid) 36); [|lia].
  unfold Sql.where_, Sql.fetchone.
  induction (sessions st) as [|b rows IH]; [reflexivity|].
  cbn [forallb] in Hnone. apply andb_true_iff in Hnone.
  destruct Hnone as [Hb Hrest]. apply negb_true_iff in Hb.
  cbn [filter Sql.like option_map Sql.is_true]. rewrite Hb. now apply IH.
Qed.

(** C3, as the code has it.  An identifier of fewer than 36 characters
    given to the [topics] command is resolved by the pattern [sid%] of
    LIKE (a prefix test up to ASCII case when [sid] has no wildcard) to
    the identifier of the first session, in the scan order of the store,
    that matches it; when no session matches, the command prints that no
    session was found and returns.  Neither outcome is an exception.  An
    identifier of 36 characters or more is used as it is. *)
Theorem C3_prefix_resolves_to_first_match :
  forall st sid,
    (length sid < 36 ->
     (forall before s after,
         sessions st = before ++ s :: after ->
         Sql.like_match (prefix_pattern sid) (session_id s) = true ->
         forallb (fun b => negb (Sql.like_match (prefix_pattern sid) (session_id b)))
           before = true ->
         resolve_session_id st sid = Resolved (session_id s))
     /\ (forallb (fun b => negb (Sql.like_match (prefix_pattern sid) (session_id b)))
           (sessions st) = true ->
         resolve_session_id st sid = NoSessionFound sid
         /\ main_topics st sid
            = Ok [Line (lit "No session found matching: " ++ sid)]))
    /\ (36 <= length sid -> resolve_session_id st sid = Resolved sid)
    /\ (wildcard_free sid = true ->
        forall s,
          Sql.like_match (prefix_pattern sid) (session_id s)
          = ci_prefix sid (session_id s)).
Proof.
  intros st sid. split; [|split].
  - intros Hlen. split.
    + intros before s after. now apply resolve_first_match.
    + intros Hnone.
      assert (Hr : resolve_session_id st sid = NoSessionFound sid)
        by now apply resolve_no_match.
      split; [exact Hr|]. unfold main_topics. now rewrite Hr.
  - intros Hlen. unfold resolve_session_id.
    destruct (Nat.ltb_spec (length sid) 36); [lia | reflexivity].
  - intros Hw s. now apply like_prefix.
Qed.

Lemma C3_prefix_resolves_to_first_match_witness :
  length (lit "aaaa") < 36 /\
  sessions Demo.store = [] ++ Demo.alpha :: [Demo.beta; Demo.unlabelled] /\
  Sql.like_match (prefix_pattern (lit "aaaa")) (session_id Demo.alpha) = true /\
  resolve_session_id Demo.store (lit "aaaa") = Resolved (session_id Demo.alpha).
Proof.
  split; [vm_compute; lia|]. split; [reflexivity|]. split; [reflexivity|].
  apply (proj1 (proj1 (C3_prefix_resolves_to_first_match Demo.store (lit "aaaa"))
                  ltac:(vm_compute; lia))
           [] Demo.alpha [Demo.beta; Demo.unlabelled]);
    reflexivity.
Defined.

(** The claim as stated fails on a prefix shared by two sessions: it is
    resolved to the first of them, and the command goes on to print the
    timeline of that session. *)
Lemma C3_ambiguous_prefix_counterexample :
  In Demo.alpha (sessions Demo.store)
  /\ In Demo.beta (sessions Demo.store)
  /\ session_id Demo.alpha <> session_id Demo.beta
  /\ ci_prefix (lit "aaaa") (session_id Demo.alpha) = true
  /\ ci_prefix (lit "aaaa") (session_id Demo.beta) = true
  /\ resolve_session_id Demo.store (lit "aaaa") = Resolved (session_id Demo.alpha)
  /\ main_topics Demo.store (lit "aaaa")
     = Ok (SessionBanner Demo.alpha
           :: TimelineHeader 12
           :: map TimelineEntry (topics Demo.store (session_id Demo.alpha))).
Proof.
  split; [now left|]. split; [right; now left|].
  split; [discriminate|]. repeat split; reflexivity.
Qed.

(** ** Missing collaborators *)


Lemma print_results_without_context analyzers query results :
  print_results analyzers query false results
  = (texts <- format_all results ;;
     Ok (flat_map (fun text => [Line text; Line []]) texts)).
Proof.
  induction results as [|r results IH]; [reflexivity|].
  cbn [print_results format_all].
  destruct (format_result r true) as [text|e]; [|reflexivity].
  cbn [bind]. rewrite IH. now destruct (format_all results).
Qed.




(** * Further properties of the code *)

(** ** The sanitizer: blank input, shape and content of the output *)

Lemma blank_app a b : blank (a ++ b) = blank a && blank b.
Proof. apply forallb_app. Qed.

Lemma lstrip_head s c t : lstrip s = c :: t -> isspace c = false.
Proof.
  induction s as [|d s IH]; cbn [lstrip]; [discriminate|].
  destruct (isspace d) eqn:Hd; [exact IH|].
  intros H. injection H as <- _. exact Hd.
Qed.

Lemma lstrip_blank_app a s : blank a = true -> lstrip (a ++ s) = lstrip s.
Proof.
  induction a as [|c a IH]; [reflexivity|].
  cbn [blank forallb app lstrip]. intros H. apply andb_true_iff in H.
  destruct H as [Hc Ha]. rewrite Hc. now apply IH.
Qed.

Lemma lstrip_app_blank s b :
  blank b = true ->
  lstrip (s ++ b) = match lstrip s with [] => [] | _ => lstrip s ++ b end.
Proof.
  intros Hb. induction s as [|c s IH]; cbn [app lstrip].
  - now apply lstrip_blank.
  - destruct (isspace c); [exact IH | reflexivity].
Qed.

Lemma rstrip_app_blank s b : blank b = true -> rstrip (s ++ b) = rstrip s.
Proof.
  intros Hb. unfold rstrip. rewrite rev_app_distr.
  rewrite lstrip_blank_app; [reflexivity|]. now rewrite blank_rev.
Qed.

Lemma rstrip_nil : rstrip [] = [].
Proof. reflexivity. Qed.

(** Whitespace around the input does not change what is stripped. *)
Lemma strip_padding a s b :
  blank a = true -> blank b = true -> strip (a ++ s ++ b) = strip s.
Proof.
  intros Ha Hb. unfold strip.
  rewrite lstrip_blank_app by exact Ha.
  rewrite lstrip_app_blank by exact Hb.
  destruct (lstrip s) as [|c t] eqn:Hs; [reflexivity|].
  now apply rstrip_app_blank.
Qed.

Lemma strip_nil_blank s : strip s = [] -> blank s = true.
Proof.
  unfold strip. intros H.
  destruct (lstrip_suffix s) as (a & Ha & Hblank_a).
  destruct (rstrip_prefix (lstrip s)) as (b & Hb & Hblank_b).
  rewrite H in Hb. cbn [app] in Hb.
  rewrite Ha, Hb, blank_app, Hblank_a, Hblank_b. reflexivity.
Qed.

Lemma strip_head s c t : strip s = c :: t -> isspace c = false.
Proof.
  unfold strip. intros H.
  destruct (rstrip_prefix (lstrip s)) as (b & Hb & _).
  rewrite H in Hb. cbn [app] in Hb. exact (lstrip_head _ Hb).
Qed.

Lemma tokens_nonempty c t toks :
  isspace c = false -> tokens (c :: t) = Some toks -> toks <> [].
Proof.
  intros Hc Ht. destruct (N.eqb_spec c quote) as [->|Hq].
  - destruct (index_of quote t) as [k|] eqn:Hk.
    + destruct (index_of_Some _ _ Hk) as (body & tl & -> & _ & Hbody).
      rewrite tokens_phrase in Ht by exact Hbody.
      destruct (tokens tl); [|discriminate]. injection Ht as <-. discriminate.
    + apply index_of_None in Hk. rewrite tokens_open in Ht by exact Hk.
      injection Ht as <-. discriminate.
  - assert (Hw : word_char c = true) by (now apply word_char_spec).
    rewrite tokens_word in Ht by exact Hw.
    destruct (tokens _); [|discriminate]. injection Ht as <-. discriminate.
Qed.

Lemma count_quotes_join toks :
  Forall quoted toks -> count_quotes (join_space toks) = 2 * length toks.
Proof.
  induction 1 as [|t ts (body & -> & Hbody) _ IH]; [reflexivity|].
  assert (Ht : count_quotes (quote :: body ++ [quote]) = 2).
  { rewrite count_quotes_cons, count_quotes_app, (count_quotes_none _ Hbody).
    reflexivity. }
  destruct ts as [|t' ts].
  - cbn [join_space length]. rewrite Ht. reflexivity.
  - rewrite join_space_cons, count_quotes_app, Ht, count_quotes_cons, IH.
    change (space =? quote)%N with false. cbn [length]. lia.
Qed.

(** X1.  The sanitizer returns the empty string exactly for the inputs
    that are empty or all whitespace: any other input gives at least one
    token. *)
Theorem escape_empty_iff_blank :
  forall query, _escape_fts_query query = [] <-> blank query = true.
Proof.
  intros query. split; [|apply escape_blank].
  intros He. destruct (strip query) as [|c t] eqn:Hs.
  - now apply strip_nil_blank.
  - exfalso. destruct (escape_join query) as (toks & Ht & Hj).
    rewrite Hs in Ht.
    assert (Hne : toks <> []).
    { eapply tokens_nonempty; [|exact Ht]. eapply strip_head; exact Hs. }
    destruct (@join_space_ends toks Hne) as [m Hm];
      [eapply tokens_quoted; exact Ht|].
    rewrite He, Hm in Hj. discriminate.
Qed.

(** X2.  The output of the sanitizer is always a list of tokens joined by
    single spaces, each token a body without any double quote between two
    double quotes; so the output holds exactly two quotes per token, and
    no bare word reaches the engine. *)
Theorem escape_output_is_quoted_tokens :
  forall query,
    exists toks,
      tokens_of (strip query) = Some toks
      /\ _escape_fts_query query = join_space toks
      /\ Forall quoted toks
      /\ count_quotes (_escape_fts_query query) = 2 * length toks.
Proof.
  intros query. destruct (escape_join query) as (toks & Ht & Hj).
  assert (Hq : Forall quoted toks) by (eapply tokens_quoted; exact Ht).
  exists toks. rewrite tokens_of_tokens.
  repeat split; try assumption. rewrite Hj. now apply count_quotes_join.
Qed.

Lemma filter_word_blank s : blank s = true -> filter word_char s = [].
Proof.
  induction s as [|c s IH]; [reflexivity|].
  cbn [blank forallb filter]. intros H. apply andb_true_iff in H.
  destruct H as [Hc Hs]. unfold word_char at 1. rewrite Hc. cbn [negb andb].
  now apply IH.
Qed.

Lemma filter_word_all w :
  Forall (fun c => word_char c = true) w -> filter word_char w = w.
Proof.
  induction 1 as [|c w Hc _ IH]; [reflexivity|].
  cbn [filter]. now rewrite Hc, IH.
Qed.

Lemma filter_word_strip s : filter word_char (strip s) = filter word_char s.
Proof.
  unfold strip.
  destruct (lstrip_suffix s) as (a & Ha & Hblank_a).
  destruct (rstrip_prefix (lstrip s)) as (b & Hb & Hblank_b).
  rewrite Ha at 2. rewrite Hb at 2.
  rewrite !filter_app, (filter_word_blank _ Hblank_a), (filter_word_blank _ Hblank_b).
  now rewrite app_nil_r.
Qed.

Lemma filter_word_join t ts :
  filter word_char (join_space (t :: ts))
  = filter word_char t ++ filter word_char (join_space ts).
Proof.
  destruct ts as [|t' ts].
  - cbn [join_space filter]. now rewrite app_nil_r.
  - rewrite join_space_cons, filter_app. reflexivity.
Qed.

Lemma filter_word_wrapped body :
  filter word_char (quote :: body ++ [quote]) = filter word_char body.
Proof.
  cbn [filter]. rewrite word_char_quote, filter_app. cbn [filter].
  rewrite word_char_quote. apply app_nil_r.
Qed.

Lemma tokens_keep_word_chars rest toks :
  tokens rest = Some toks ->
  filter word_char (join_space toks) = filter word_char rest.
Proof.
  revert rest toks.
  apply (@tokens_ind (fun rest toks =>
           filter word_char (join_space toks) = filter word_char rest)).
  - reflexivity.
  - intros c tl toks Hsp _ IH. cbn [filter]. unfold word_char at 2.
    rewrite Hsp. exact IH.
  - intros tl _. cbn [join_space]. rewrite filter_word_wrapped.
    cbn [filter]. now rewrite word_char_quote.
  - intros body tl toks _ _ IH.
    rewrite filter_word_join, filter_word_wrapped, IH.
    cbn [filter]. rewrite word_char_quote, filter_app. cbn [filter].
    now rewrite word_char_quote.
  - intros w tl toks _ Hw _ _ IH.
    rewrite filter_word_join, filter_word_wrapped, IH, filter_app. reflexivity.
Qed.

(** X3.  The sanitizer only adds and removes whitespace and double
    quotes: the characters of the output that are neither are those of
    the input, in the same order. *)
Theorem escape_keeps_other_characters :
  forall query,
    filter word_char (_escape_fts_query query) = filter word_char query.
Proof.
  intros query. destruct (escape_join query) as (toks & Ht & ->).
  rewrite (tokens_keep_word_chars _ Ht). apply filter_word_strip.
Qed.

Lemma tokens_skip_blank g rest : blank g = true -> tokens (g ++ rest) = tokens rest.
Proof.
  induction g as [|c g IH]; [reflexivity|].
  cbn [blank forallb app]. intros H. apply andb_true_iff in H.
  destruct H as [Hc Hg]. rewrite tokens_space by exact Hc. now apply IH.
Qed.

Lemma is_word_spec w :
  is_word w = true ->
  w <> [] /\ Forall (fun c => word_char c = true) w.
Proof.
  destruct w as [|c w]; [discriminate|]. intros H. split; [discriminate|].
  apply Forall_forall. now apply forallb_forall.
Qed.

Lemma is_gap_spec g :
  is_gap g = true -> exists c g', g = c :: g' /\ isspace c = true /\ blank g = true.
Proof.
  destruct g as [|c g']; [discriminate|]. intros H. exists c, g'.
  split; [reflexivity|]. split; [|exact H].
  cbn [is_gap forallb] in H. now apply andb_true_iff in H.
Qed.

Lemma tokens_spaced first more :
  is_word first = true ->
  forallb (fun gw => is_gap (fst gw) && is_word (snd gw)) more = true ->
  tokens (spaced first more) = Some (map wrap (first :: map snd more)).
Proof.
  revert first. unfold spaced.
  induction more as [|[g w] more IH]; intros first Hfirst Hmore.
  - cbn [map concat]. destruct (is_word_spec _ Hfirst) as [Hne Hall].
    rewrite tokens_word_app; [reflexivity | exact Hne | exact Hall | exact I].
  - cbn [forallb fst snd] in Hmore. apply andb_true_iff in Hmore.
    destruct Hmore as [Hgw Hmore]. apply andb_true_iff in Hgw.
    destruct Hgw as [Hg Hw].
    destruct (is_word_spec _ Hfirst) as [Hne Hall].
    destruct (is_gap_spec _ Hg) as (c & g' & -> & Hc & Hblank).
    cbn [map concat fst snd]. rewrite <- !app_assoc.
    rewrite tokens_word_app; [| exact Hne | exact Hall |].
    2:{ cbn [app token_end]. unfold word_char. now rewrite Hc. }
    rewrite tokens_skip_blank by exact Hblank.
    rewrite (IH w Hw Hmore). reflexivity.
Qed.

Lemma word_last w :
  is_word w = true -> exists m d, w = m ++ [d] /\ isspace d = false.
Proof.
  intros H. destruct (is_word_spec _ H) as [Hne Hall].
  destruct (exists_last Hne) as (m & d & ->). exists m, d.
  split; [reflexivity|].
  apply Forall_app in Hall. destruct Hall as [_ Hd].
  inversion Hd as [|? ? Hwd _]; subst. now apply word_char_spec in Hwd.
Qed.

Lemma spaced_ends first more :
  is_word first = true ->
  forallb (fun gw => is_gap (fst gw) && is_word (snd gw)) more = true ->
  exists c m d,
    (spaced first more = [c] \/ spaced first more = c :: m ++ [d])
    /\ isspace c = false /\ isspace d = false.
Proof.
  intros Hfirst Hmore.
  assert (Hlast : exists m d, spaced first more = m ++ [d] /\ isspace d = false).
  { unfold spaced. revert first Hfirst.
    induction more as [|[g w] more IH]; intros first Hfirst.
    - cbn [map concat]. rewrite app_nil_r. now apply word_last.
    - cbn [forallb fst snd] in Hmore. apply andb_true_iff in Hmore.
      destruct Hmore as [Hgw Hmore']. apply andb_true_iff in Hgw.
      destruct Hgw as [_ Hw].
      destruct (IH Hmore' w Hw) as (m & d & Hm & Hd).
      exists (first ++ g ++ m), d. split; [|exact Hd].
      cbn [map concat fst snd]. rewrite <- !app_assoc. do 2 f_equal.
      exact Hm. }
  destruct Hlast as (m & d & Hm & Hd).
  destruct (is_word_spec _ Hfirst) as [Hne Hall].
  destruct first as [|c first']; [contradiction|].
  inversion Hall as [|? ? Hc _]; subst. apply word_char_spec in Hc.
  destruct m as [|c' m'].
  - exists d, [], d. split; [left; exact Hm|]. tauto.
  - exists c, m', d. split; [|tauto]. right.
    rewrite Hm. unfold spaced in Hm. cbn [app] in Hm |- *.
    injection Hm as -> _. reflexivity.
Qed.

Lemma strip_fixed c m d :
  isspace c = false -> isspace d = false ->
  strip [c] = [c] /\ strip (c :: m ++ [d]) = c :: m ++ [d].
Proof.
  intros Hc Hd. split.
  - unfold strip, rstrip. cbn [lstrip rev app]. rewrite Hc. cbn [lstrip rev app].
    now rewrite Hc.
  - unfold strip. cbn [lstrip]. rewrite Hc.
    change (c :: m ++ [d]) with ((c :: m) ++ d :: []).
    now rewrite rstrip_app_stop by exact Hd.
Qed.

(** X4.  Words separated by runs of whitespace come out one token each:
    every word between double quotes, the tokens joined by single spaces,
    whatever whitespace separated them. *)
Theorem escape_plain_words :
  forall first more,
    is_word first = true ->
    forallb (fun gw => is_gap (fst gw) && is_word (snd gw)) more = true ->
    _escape_fts_query (spaced first more)
    = join_space (map wrap (first :: map snd more)).
Proof.
  intros first more Hfirst Hmore. apply escape_of_tokens.
  destruct (spaced_ends _ _ Hfirst Hmore) as (c & m & d & Hshape & Hc & Hd).
  destruct (@strip_fixed c m d Hc Hd) as [H1 H2].
  assert (Hs : strip (spaced first more) = spaced first more)
    by (destruct Hshape as [-> | ->]; assumption).
  rewrite Hs. now apply tokens_spaced.
Qed.

Lemma escape_plain_words_witness :
  is_word (lit "session.index") = true /\
  forallb (fun gw => is_gap (fst gw) && is_word (snd gw))
    [([9%N; 32%N], lit "NOT"); (lit "  ", lit "re-index")] = true /\
  _escape_fts_query
    (spaced (lit "session.index")
       [([9%N; 32%N], lit "NOT"); (lit "  ", lit "re-index")])
  = join_space
      (map wrap [lit "session.index"; lit "NOT"; lit "re-index"]).
Proof.
  split; [reflexivity|]. split; [reflexivity|].
  apply escape_plain_words; reflexivity.
Defined.

Lemma escape_padding before query after :
  blank before = true -> blank after = true ->
  _escape_fts_query (before ++ query ++ after) = _escape_fts_query query.
Proof.
  intros Hb Ha.
  destruct (escape_join query) as (toks & Ht & ->).
  apply escape_of_tokens. now rewrite strip_padding.
Qed.

(** X5.  Whitespace before and after the input is ignored: the output is
    that of the input without it. *)
Theorem escape_ignores_padding :
  forall before query after,
    blank before = true -> blank after = true ->
    _escape_fts_query (before ++ query ++ after) = _escape_fts_query query
    /\ _escape_fts_query (strip query) = _escape_fts_query query.
Proof.
  intros before query after Hb Ha. split; [now apply escape_padding|].
  destruct (escape_join query) as (toks & Ht & ->).
  apply escape_of_tokens.
  destruct (escape_join (strip query)) as (toks' & Ht' & _).
  assert (Hs : strip (strip query) = strip query).
  { destruct (lstrip_suffix query) as (a & Ha' & Hblank_a).
    destruct (rstrip_prefix (lstrip query)) as (b & Hb' & Hblank_b).
    fold (strip query) in Hb'.
    assert (E : query = a ++ strip query ++ b) by (rewrite <- Hb'; exact Ha').
    symmetry. rewrite E at 1. now apply strip_padding. }
  now rewrite Hs.
Qed.

Lemma escape_ignores_padding_witness :
  blank (lit "  ") = true /\ blank [9%N; 10%N] = true /\
  _escape_fts_query (lit "  " ++ lit "a b" ++ [9%N; 10%N])
  = _escape_fts_query (lit "a b").
Proof.
  split; [reflexivity|]. split; [reflexivity|].
  apply (escape_ignores_padding (lit "  ") (lit "a b") [9%N; 10%N]); reflexivity.
Defined.

(** ** [search]: what it returns and when it raises *)

Lemma escape_idem query :
  _escape_fts_query (_escape_fts_query query) = _escape_fts_query query.
Proof.
  destruct (escape_join query) as (toks & Ht & ->).
  apply escape_joined. eapply tokens_quoted. exact Ht.
Qed.

(** X6.  [search] sees its query only through the sanitizer: a query that
    is already sanitized, or one padded with whitespace, gives the very
    same outcome as the original. *)
Theorem search_of_sanitized_query :
  forall st query limit,
    search st (_escape_fts_query query) limit = search st query limit
    /\ forall before after,
        blank before = true -> blank after = true ->
        search st (before ++ query ++ after) limit = search st query limit.
Proof.
  intros st query limit. split.
  - unfold search. now rewrite escape_idem.
  - intros before after Hb Ha. unfold search.
    now rewrite escape_padding.
Qed.

Lemma search_of_sanitized_query_witness :
  blank (lit " ") = true /\ blank [10%N] = true /\
  search Demo.store (lit " " ++ lit "hook" ++ [10%N]) 20
  = search Demo.store (lit "hook") 20.
Proof.
  split; [reflexivity|]. split; [reflexivity|].
  apply (proj2 (search_of_sanitized_query Demo.store (lit "hook") 20));
    reflexivity.
Defined.

Lemma limit_incl (Row : Type) (n : Z) (rows : list Row) r :
  In r (Sql.limit n rows) -> In r rows.
Proof.
  intros H. destruct (limit_split n rows) as [dropped <-].
  apply in_or_app. now left.
Qed.

Lemma limit_bound (Row : Type) (n : Z) (rows : list Row) :
  (0 <= n)%Z -> length (Sql.limit n rows) <= Z.to_nat n.
Proof. intros H. rewrite limit_length by exact H. lia. Qed.

Lemma join_sessions_In st hits s h :
  In (s, h) (join_sessions st hits) <->
  In h hits /\ In s (sessions st) /\ session_id s = hit_session_id h.
Proof.
  unfold join_sessions. rewrite in_flat_map. split.
  - intros (h' & Hh & Hin). apply in_map_iff in Hin.
    destruct Hin as (s' & Heq & Hs). injection Heq as -> ->.
    apply filter_In in Hs. destruct Hs as [Hs He].
    apply str_eqb_eq in He. tauto.
  - intros (Hh & Hs & He). exists h. split; [exact Hh|].
    apply in_map_iff. exists s. split; [reflexivity|].
    apply filter_In. split; [exact Hs|]. now apply str_eqb_eq.
Qed.

(** X7.  With the limit 0 [search] returns no result, whatever the
    engine would say of the query.  With any other limit it raises
    exactly when the engine raises on the sanitized query, and with the
    same error; otherwise every result is a session of the store joined
    with an index row the engine matched for the same session identifier,
    and it carries the snippet of that row.  For a limit that is not
    negative there are at most [limit] results. *)
Theorem search_results_come_from_hits :
  forall st query limit,
    search st query 0 = Ok []
    /\ (limit <> 0%Z ->
        forall e,
          search st query limit = Raise e
          <-> fts_match st (_escape_fts_query query) = Raise e)
    /\ (forall results,
          search st query limit = Ok results ->
          limit <> 0%Z ->
          exists hits,
            fts_match st (_escape_fts_query query) = Ok hits
            /\ Forall
                 (fun r =>
                    exists s h,
                      In s (sessions st) /\ In h hits
                      /\ session_id s = hit_session_id h
                      /\ r = enrich st s (Some (hit_snippet h)))
                 results)
    /\ (forall results,
          search st query limit = Ok results ->
          (0 <= limit)%Z -> length results <= Z.to_nat limit).
Proof.
  intros st query limit. split; [reflexivity|]. unfold search.
  destruct (Z.eqb_spec limit 0) as [->|Hz].
  - split; [intros H; now contradiction H|].
    split; [intros results _ H; now contradiction H|].
    intros results H _. injection H as <-. cbn [length]. lia.
  - destruct (fts_match st (_escape_fts_query query)) as [hits|err]; cbn [bind].
    + split; [intros _ e; split; discriminate|].
      split.
      * intros results H _. injection H as <-. exists hits.
        split; [reflexivity|].
        apply Forall_forall. intros r Hr. apply in_map_iff in Hr.
        destruct Hr as ([s h] & <- & Hin). apply limit_incl in Hin.
        apply join_sessions_In in Hin. exists s, h. cbn [fst snd]. tauto.
      * intros results H Hl. injection H as <-. rewrite length_map.
        now apply limit_bound.
    + split; [intros _ e; split; intros H; injection H as ->; reflexivity|].
      split; intros results H; discriminate H.
Qed.

Lemma search_results_come_from_hits_witness :
  exists results,
    search Demo.store (lit "hook") 1 = Ok results
    /\ (1 <> 0)%Z
    /\ (0 <= 1)%Z
    /\ (exists hits,
          fts_match Demo.store (_escape_fts_query (lit "hook")) = Ok hits)
    /\ length results <= Z.to_nat 1.
Proof.
  eexists. split; [reflexivity|]. split; [lia|]. split; [lia|].
  pose proof (search_results_come_from_hits Demo.store (lit "hook") 1)
    as (_ & _ & Hhits & Hbound).
  split.
  - destruct (Hhits _ eq_refl ltac:(lia)) as (hits & Hh & _).
    exists hits. exact Hh.
  - apply (Hbound _ eq_refl). lia.
Defined.

(** ** [find]: soundness, completeness, order and errors *)

Lemma tv_and_true a b :
  Sql.tv_and a b = Some true <-> a = Some true /\ b = Some true.
Proof. destruct a as [[|]|], b as [[|]|]; simpl; split; intros H; try tauto; try discriminate; destruct H; discriminate. Qed.

Lemma fold_tv_and_true (A : Type) (f : A -> Sql.tv) l a :
  fold_left (fun acc c => Sql.tv_and acc (f c)) l a = Some true
  <-> a = Some true /\ Forall (fun c => f c = Some true) l.
Proof.
  revert a. induction l as [|c l IH]; intros a; cbn [fold_left].
  - split; [intros H; split; [exact H | constructor] | tauto].
  - rewrite IH, tv_and_true. split.
    + intros [[Ha Hc] Hl]. split; [exact Ha | now constructor].
    + intros [Ha Hl]. inversion Hl; subst. tauto.
Qed.

Lemma is_true_spec v : Sql.is_true v = true <-> v = Some true.
Proof. destruct v as [[|]|]; simpl; split; congruence. Qed.

Lemma eval_where_true st conditions s :
  Sql.is_true (eval_where st (where_of conditions) s) = true
  <-> Forall (fun c => eval_cond st s c = Some true) conditions.
Proof.
  rewrite is_true_spec. destruct conditions as [|c conditions].
  - cbn [where_of eval_where]. split; [constructor | reflexivity].
  - cbn [where_of eval_where]. rewrite fold_tv_and_true. tauto.
Qed.

Lemma sorted_prefix (A : Type) (R : A -> A -> Prop) (l1 l2 : list A) :
  StronglySorted R (l1 ++ l2) -> StronglySorted R l1.
Proof.
  induction l1 as [|x l1 IH]; cbn [app]; intros H; [constructor|].
  inversion H as [|? ? Hs Hx]; subst. constructor; [now apply IH|].
  apply Forall_app in Hx. tauto.
Qed.

Lemma sorted_map (A B : Type) (f : A -> B) (R : B -> B -> Prop) (l : list A) :
  StronglySorted (fun a b => R (f a) (f b)) l -> StronglySorted R (map f l).
Proof.
  induction 1 as [|x l _ IH Hx]; cbn [map]; constructor; [exact IH|].
  apply Forall_forall. intros y Hy. apply in_map_iff in Hy.
  destruct Hy as (a & <- & Ha). rewrite Forall_forall in Hx. now apply Hx.
Qed.

Lemma find_rows_sorted st w limit :
  StronglySorted (fun a b => by_start_time_desc a b = true) (find_rows st w limit).
Proof.
  unfold find_rows.
  destruct (limit_split limit
              (Sql.order_by by_start_time_desc
                 (Sql.where_ (eval_where st w) (sessions st)))) as [dropped H].
  apply sorted_prefix with dropped. rewrite H.
  apply order_by_sorted.
  - apply by_start_time_desc_total.
  - apply by_start_time_desc_trans.
Qed.

Lemma find_rows_In st w limit s :
  In s (find_rows st w limit) ->
  In s (sessions st) /\ Sql.is_true (eval_where st w s) = true.
Proof.
  unfold find_rows. intros H. apply limit_incl in H.
  apply (Permutation_in _ (order_by_perm _ _)) in H.
  now apply filter_In in H.
Qed.

(** X8.  Every row [find] returns is a session of the store for which
    each condition built from the criteria is true (not false, not
    unknown); it has no snippet; the rows are in descending order of start
    time, and for a limit that is not negative there are at most [limit]
    of them. *)
Theorem find_results_satisfy_conditions :
  forall st clock c limit results,
    find st clock c limit = Ok results ->
    exists conditions,
      find_conditions clock c = Ok conditions
      /\ Forall
           (fun r =>
              r_snippet r = None
              /\ exists s,
                  In s (sessions st) /\ r = enrich st s None
                  /\ Forall (fun cond => eval_cond st s cond = Some true)
                       conditions)
           results
      /\ StronglySorted
           (fun a b => Sql.text_leb (r_start_time b) (r_start_time a) = true)
           results
      /\ ((0 <= limit)%Z -> length results <= Z.to_nat limit).
Proof.
  intros st clock c limit results H. unfold find in H.
  destruct (find_conditions clock c) as [conditions|e]; [|discriminate].
  cbn [bind] in H. injection H as <-. exists conditions.
  split; [reflexivity|]. split; [|split].
  - apply Forall_forall. intros r Hr. apply in_map_iff in Hr.
    destruct Hr as (s & <- & Hs). apply find_rows_In in Hs.
    destruct Hs as [Hin Htrue]. split; [reflexivity|].
    exists s. split; [exact Hin|]. split; [reflexivity|].
    now apply eval_where_true.
  - apply sorted_map with (f := fun s => enrich st s None)
                          (R := fun a b => Sql.text_leb (r_start_time b) (r_start_time a) = true).
    apply find_rows_sorted.
  - intros Hl. rewrite length_map. unfold find_rows. now apply limit_bound.
Qed.

Lemma find_results_satisfy_conditions_witness :
  exists results,
    find Demo.store Demo.clock (Arg.only_has_compaction false) 1 = Ok results
    /\ exists conditions,
        find_conditions Demo.clock (Arg.only_has_compaction false) = Ok conditions
        /\ ((0 <= 1)%Z -> length results <= Z.to_nat 1).
Proof.
  eexists. split; [reflexivity|].
  destruct (@find_results_satisfy_conditions Demo.store Demo.clock
              (Arg.only_has_compaction false) 1 _ eq_refl)
    as (conditions & Hc & _ & _ & Hl).
  exists conditions. split; assumption.
Defined.

(** X9.  With a limit of at least the number of sessions, [find] leaves
    no match out: every session of the store for which each condition is
    true is among the rows returned. *)
Theorem find_returns_every_match :
  forall st clock c limit conditions s,
    (Z.of_nat (length (sessions st)) <= limit)%Z ->
    find_conditions clock c = Ok conditions ->
    In s (sessions st) ->
    Forall (fun cond => eval_cond st s cond = Some true) conditions ->
    exists results,
      find st clock c limit = Ok results /\ In (enrich st s None) results.
Proof.
  intros st clock c limit conditions s Hlimit Hc Hs Hall.
  unfold find. rewrite Hc. cbn [bind]. eexists. split; [reflexivity|].
  apply in_map_iff. exists s. split; [reflexivity|].
  rewrite find_rows_all by exact Hlimit.
  apply (Permutation_in _ (Permutation_sym (order_by_perm _ _))).
  apply filter_In. split; [exact Hs|]. now apply eval_where_true.
Qed.

Lemma find_returns_every_match_witness :
  (Z.of_nat (length (sessions Demo.store)) <= 20)%Z /\
  find_conditions Demo.clock (Arg.only_has_compaction true)
  = Ok [HasCompactionEq 1] /\
  In Demo.beta (sessions Demo.store) /\
  exists results,
    find Demo.store Demo.clock (Arg.only_has_compaction true) 20 = Ok results
    /\ In (enrich Demo.store Demo.beta None) results.
Proof.
  split; [vm_compute; discriminate|]. split; [reflexivity|].
  split; [right; now left|].
  apply (@find_returns_every_match Demo.store Demo.clock
           (Arg.only_has_compaction true) 20 [HasCompactionEq 1] Demo.beta).
  - vm_compute. discriminate.
  - reflexivity.
  - right. now left.
  - repeat constructor.
Defined.

(** X10.  Building the conditions of [find] (everything before the
    statement is run) fails only where the clock is read.  The conditions
    are built whenever the clock is not consulted ([week] false and
    [days] absent or zero); an error is the error of one of the clock
    readings the criteria ask for; and each such reading that fails makes
    the building fail with its error, the reading for [week] first. *)
Theorem find_conditions_raise_only_from_clock :
  forall clock c,
    (Arg.week c = false ->
     Arg.days c = None \/ Arg.days c = Some 0%Z ->
     exists conditions, find_conditions clock c = Ok conditions)
    /\ (forall e,
          find_conditions clock c = Raise e ->
          (Arg.week c = true /\ days_ago clock 7 = Raise e)
          \/ exists d,
              Arg.days c = Some d /\ d <> 0%Z /\ days_ago clock d = Raise e)
    /\ (forall e,
          Arg.week c = true -> days_ago clock 7 = Raise e ->
          find_conditions clock c = Raise e)
    /\ (forall d e,
          Arg.week c = false -> Arg.days c = Some d -> d <> 0%Z ->
          days_ago clock d = Raise e ->
          find_conditions clock c = Raise e).
Proof.
  intros clock c. unfold find_conditions.
  destruct c as [cl tg tl ag dt wk ds pr ex hc].
  cbn [Arg.client Arg.tag Arg.tool Arg.agent Arg.date Arg.week Arg.days
       Arg.project Arg.exclude_project Arg.has_compaction].
  split; [|split; [|split]].
  - intros -> [-> | ->]; cbn [bind Z.eqb]; eauto.
  - intros e H. destruct wk.
    + destruct (days_ago clock 7) as [week_ago|e7] eqn:H7; cbn [bind] in H.
      * right. destruct ds as [d|]; [|discriminate].
        destruct (Z.eqb_spec d 0) as [->|Hd]; [discriminate|].
        destruct (days_ago clock d) as [cutoff|ed] eqn:Hdays; [discriminate|].
        cbn [bind] in H. injection H as <-. now exists d.
      * left. injection H as <-. now split.
    + cbn [bind] in H. right. destruct ds as [d|]; [|discriminate].
      destruct (Z.eqb_spec d 0) as [->|Hd]; [discriminate|].
      destruct (days_ago clock d) as [cutoff|ed] eqn:Hdays; [discriminate|].
      cbn [bind] in H. injection H as <-. now exists d.
  - intros e -> H7. rewrite H7. reflexivity.
  - intros d e -> -> Hd Hdays. cbn [bind].
    destruct (Z.eqb_spec d 0) as [H0|_]; [contradiction|].
    rewrite Hdays. reflexivity.
Qed.

Lemma find_conditions_raise_only_from_clock_witness :
  Arg.week Arg.all_falsy = false /\
  (Arg.days Arg.all_falsy = None \/ Arg.days Arg.all_falsy = Some 0%Z) /\
  exists conditions, find_conditions Demo.clock Arg.all_falsy = Ok conditions.
Proof.
  split; [reflexivity|]. split; [right; reflexivity|].
  apply (proj1 (find_conditions_raise_only_from_clock Demo.clock Arg.all_falsy)).
  - reflexivity.
  - right. reflexivity.
Defined.

Lemma append_if_app v clause conditions :
  append_if v clause conditions = conditions ++ clause_of v clause.
Proof.
  unfold append_if, clause_of. destruct (truthy_str v); [reflexivity|].
  now rewrite app_nil_r.
Qed.

(** The list [find] builds holds, in the order of the code, one condition
    for each criterion that is supplied and truthy, and nothing else; the
    two date criteria each read the clock once. *)
Lemma find_conditions_shape clock c conditions :
  find_conditions clock c = Ok conditions ->
  exists week_part days_part,
    conditions
    = clause_of (Arg.client c) (fun v => ClientLike (contains_pattern v))
      ++ clause_of (Arg.tag c) (fun v => TagsLike (contains_pattern v))
      ++ clause_of (Arg.tool c) (fun v => ToolIn (contains_pattern v))
      ++ clause_of (Arg.agent c) (fun v => AgentIn (contains_pattern v))
      ++ clause_of (Arg.project c)
           (fun v => ProjectLike (contains_pattern v) (contains_pattern v))
      ++ clause_of (Arg.date c) (fun v => StartTimeLike (prefix_pattern v))
      ++ week_part ++ days_part
      ++ clause_of (Arg.exclude_project c)
           (fun v => NotProjectLike (contains_pattern v) (contains_pattern v))
      ++ compaction_clause (Arg.has_compaction c)
    /\ (if Arg.week c
        then exists cutoff,
               days_ago clock 7 = Ok cutoff /\ week_part = [StartTimeGe cutoff]
        else week_part = [])
    /\ match Arg.days c with
       | Some d =>
           if (d =? 0)%Z then days_part = []
           else exists cutoff,
                  days_ago clock d = Ok cutoff /\ days_part = [StartTimeGe cutoff]
       | None => days_part = []
       end.
Proof.
  destruct c as [cl tg tl ag dt wk ds pr ex hc].
  unfold find_conditions.
  cbn [Arg.client Arg.tag Arg.tool Arg.agent Arg.date Arg.week Arg.days
       Arg.project Arg.exclude_project Arg.has_compaction].
  intros H.
  assert (Hhc : forall l : list Cond,
             match hc with
             | Some b => l ++ [HasCompactionEq (if b then 1 else 0)%Z]
             | None => l
             end = l ++ compaction_clause hc).
  { intros l. destruct hc; [reflexivity|]. cbn [compaction_clause].
    now rewrite app_nil_r. }
  destruct wk.
  - destruct (days_ago clock 7) as [week_ago|e7] eqn:H7; [|discriminate].
    cbn [bind] in H. exists [StartTimeGe week_ago].
    destruct ds as [d|].
    + destruct (Z.eqb_spec d 0) as [->|Hd].
      * cbn [bind] in H. injection H as <-. exists [].
        rewrite Hhc, !append_if_app, <- !app_assoc. cbn [app].
        split; [reflexivity|]. split; [now exists week_ago | reflexivity].
      * destruct (days_ago clock d) as [cutoff|ed] eqn:Hdays; [|discriminate].
        cbn [bind] in H. injection H as <-. exists [StartTimeGe cutoff].
        rewrite Hhc, !append_if_app, <- !app_assoc. cbn [app].
        split; [reflexivity|]. split; [now exists week_ago | now exists cutoff].
    + cbn [bind] in H. injection H as <-. exists [].
      rewrite Hhc, !append_if_app, <- !app_assoc. cbn [app].
      split; [reflexivity|]. split; [now exists week_ago | reflexivity].
  - cbn [bind] in H. exists [].
    destruct ds as [d|].
    + destruct (Z.eqb_spec d 0) as [->|Hd].
      * cbn [bind] in H. injection H as <-. exists [].
        rewrite Hhc, !append_if_app, <- !app_assoc. cbn [app].
        repeat split; reflexivity.
      * destruct (days_ago clock d) as [cutoff|ed] eqn:Hdays; [|discriminate].
        cbn [bind] in H. injection H as <-. exists [StartTimeGe cutoff].
        rewrite Hhc, !append_if_app, <- !app_assoc. cbn [app].
        split; [reflexivity|]. split; [reflexivity | now exists cutoff].
    + cbn [bind] in H. injection H as <-. exists [].
      rewrite Hhc, !append_if_app, <- !app_assoc. cbn [app].
      repeat split; reflexivity.
Qed.

Lemma find_sound st clock c limit results :
  find st clock c limit = Ok results ->
  exists conditions,
    find_conditions clock c = Ok conditions
    /\ forall r,
        In r results ->
        exists s,
          In s (sessions st) /\ r = enrich st s None
          /\ Forall (fun cond => eval_cond st s cond = Some true) conditions.
Proof.
  intros H. unfold find in H.
  destruct (find_conditions clock c) as [conditions|e]; [|discriminate].
  cbn [bind] in H. injection H as <-. exists conditions.
  split; [reflexivity|]. intros r Hr. apply in_map_iff in Hr.
  destruct Hr as (s & <- & Hs). apply find_rows_In in Hs.
  destruct Hs as [Hin Htrue]. exists s. split; [exact Hin|].
  split; [reflexivity|]. now apply eval_where_true.
Qed.

Lemma clause_of_true v clause s (P : Cond -> Prop) :
  truthy_str v = Some s -> Forall P (clause_of v clause) -> P (clause s).
Proof.
  unfold clause_of. intros ->. intros H. now inversion H.
Qed.

Lemma like_true x p :
  Sql.like x p = Some true -> exists t, x = Some t /\ Sql.like_match p t = true.
Proof.
  destruct x as [t|]; [|discriminate]. cbn [Sql.like option_map].
  intros H. injection H as H. now exists t.
Qed.

Lemma text_ge_true x v :
  Sql.text_ge x v = Some true -> exists t, x = Some t /\ Sql.str_leb v t = true.
Proof.
  destruct x as [t|]; [|discriminate]. cbn [Sql.text_ge option_map].
  intros H. injection H as H. now exists t.
Qed.

Lemma not_project_true name path p :
  Sql.tv_not (Sql.tv_or (Sql.like name p) (Sql.like path p)) = Some true ->
  exists n q,
    name = Some n /\ path = Some q
    /\ Sql.like_match p n = false /\ Sql.like_match p q = false.
Proof.
  destruct name as [n|], path as [q|]; cbn [Sql.like option_map];
    try (destruct (Sql.like_match p n) eqn:Hn);
    try (destruct (Sql.like_match p q) eqn:Hq);
    cbn; try discriminate.
  intros _. exists n, q. repeat split; assumption.
Qed.

(** X11.  What a criterion of [find] guarantees about each row returned:
    a [client], [tag] or [date] criterion that is truthy means the row has
    that field, not NULL, and it matches the pattern; [has_compaction]
    means the flag of the row is exactly 1 or 0; [exclude_project] means
    the project name of the row is not NULL and does not match; [week]
    and a non-zero [days] mean the row has a start time at or after the
    cutoff read from the clock. *)
Theorem find_enforces_criteria :
  forall st clock c limit results,
    find st clock c limit = Ok results ->
    Forall
      (fun r =>
         (forall v, truthy_str (Arg.client c) = Some v ->
            exists t, r_client r = Some t
                      /\ Sql.like_match (contains_pattern v) t = true)
         /\ (forall v, truthy_str (Arg.tag c) = Some v ->
               exists t, r_tags r = Some t
                         /\ Sql.like_match (contains_pattern v) t = true)
         /\ (forall v, truthy_str (Arg.date c) = Some v ->
               exists t, r_start_time r = Some t
                         /\ Sql.like_match (prefix_pattern v) t = true)
         /\ (forall b, Arg.has_compaction c = Some b ->
               r_has_compaction r = Some (if b then 1 else 0)%Z)
         /\ (forall v, truthy_str (Arg.exclude_project c) = Some v ->
               exists name, r_project_name r = Some name
                            /\ Sql.like_match (contains_pattern v) name = false)
         /\ (Arg.week c = true ->
               exists cutoff t,
                 days_ago clock 7 = Ok cutoff /\ r_start_time r = Some t
                 /\ Sql.str_leb cutoff t = true)
         /\ (forall d, Arg.days c = Some d -> d <> 0%Z ->
               exists cutoff t,
                 days_ago clock d = Ok cutoff /\ r_start_time r = Some t
                 /\ Sql.str_leb cutoff t = true))
      results.
Proof.
  intros st clock c limit results H.
  destruct (find_sound _ _ _ _ H) as (conditions & Hc & Hrows).
  destruct (find_conditions_shape _ _ Hc) as (week_part & days_part & -> & Hweek & Hdays).
  apply Forall_forall. intros r Hr.
  destruct (Hrows r Hr) as (s & _ & -> & Hall).
  repeat (apply Forall_app in Hall;
          let H1 := fresh "Hpart" in destruct Hall as [H1 Hall]).
  cbn [enrich r_client r_tags r_start_time r_has_compaction r_project_name].
  repeat split.
  - intros v Hv. pose proof (@clause_of_true _ _ _ _ Hv Hpart) as Hx; cbn beta in Hx.
    cbn [eval_cond] in Hx. now apply like_true.
  - intros v Hv. pose proof (@clause_of_true _ _ _ _ Hv Hpart0) as Hx; cbn beta in Hx.
    cbn [eval_cond] in Hx. now apply like_true.
  - intros v Hv. pose proof (@clause_of_true _ _ _ _ Hv Hpart4) as Hx; cbn beta in Hx.
    cbn [eval_cond] in Hx. now apply like_true.
  - intros b Hb. rewrite Hb in Hall. cbn [compaction_clause] in Hall.
    inversion Hall as [|? ? Heq _]; subst. cbn [eval_cond] in Heq.
    destruct (has_compaction s) as [n|]; [|discriminate].
    cbn [Sql.int_eq option_map] in Heq. injection Heq as Heq.
    apply Z.eqb_eq in Heq. now subst.
  - intros v Hv. pose proof (@clause_of_true _ _ _ _ Hv Hpart7) as Hx; cbn beta in Hx.
    cbn [eval_cond] in Hx. apply not_project_true in Hx.
    destruct Hx as (n & q & Hn & _ & Hm & _). now exists n.
  - intros Hw. rewrite Hw in Hweek. destruct Hweek as (cutoff & H7 & ->).
    inversion Hpart5 as [|? ? Heq _]; subst. cbn [eval_cond] in Heq.
    apply text_ge_true in Heq. destruct Heq as (t & Ht & Hle).
    now exists cutoff, t.
  - intros d Hd Hnz. rewrite Hd in Hdays.
    rewrite (proj2 (Z.eqb_neq d 0) Hnz) in Hdays.
    destruct Hdays as (cutoff & Hago & ->).
    inversion Hpart6 as [|? ? Heq _]; subst. cbn [eval_cond] in Heq.
    apply text_ge_true in Heq. destruct Heq as (t & Ht & Hle).
    now exists cutoff, t.
Qed.

Lemma find_enforces_criteria_witness :
  exists results,
    find Demo.store Demo.clock (Arg.only_has_compaction true) 20 = Ok results
    /\ Forall (fun r => r_has_compaction r = Some 1%Z) results.
Proof.
  eexists. split; [reflexivity|].
  pose proof (@find_enforces_criteria Demo.store Demo.clock
                (Arg.only_has_compaction true) 20 _ eq_refl) as H.
  apply Forall_forall. intros r Hr. rewrite Forall_forall in H.
  destruct (H r Hr) as (_ & _ & _ & Hflag & _). now apply (Hflag true).
Defined.

(** ** The [topics] command: resolution and output *)

Lemma fetchone_where_In (Row : Type) (cond : Row -> Sql.tv) rows r :
  Sql.fetchone (Sql.where_ cond rows) = Some r ->
  In r rows /\ cond r = Some true.
Proof.
  unfold Sql.fetchone, Sql.where_. intros H.
  assert (Hin : In r (filter (fun x => Sql.is_true (cond x)) rows)).
  { destruct (filter _ rows); [discriminate|]. injection H as ->. now left. }
  apply filter_In in Hin. destruct Hin as [Hin Ht].
  split; [exact Hin | now apply is_true_spec].
Qed.

(** X12.  A shortened identifier never resolves to something made up:
    the identifier it resolves to is that of a session of the store and
    matches the pattern.  The empty identifier matches every session, so
    on a store that is not empty it resolves to the first session. *)
Theorem resolved_identifier_is_a_session :
  forall st sid,
    length sid < 36 ->
    (forall full,
        resolve_session_id st sid = Resolved full ->
        exists s,
          In s (sessions st) /\ session_id s = full
          /\ Sql.like_match (prefix_pattern sid) full = true)
    /\ (forall first others,
           sid = [] -> sessions st = first :: others ->
           resolve_session_id st sid = Resolved (session_id first)).
Proof.
  intros st sid Hlen. unfold resolve_session_id.
  destruct (Nat.ltb_spec (length sid) 36); [|lia]. split.
  - intros full Hres.
    destruct (Sql.fetchone _) as [row|] eqn:Hrow; [|discriminate].
    injection Hres as <-. apply fetchone_where_In in Hrow.
    destruct Hrow as [Hin Hlike]. exists row. split; [exact Hin|].
    split; [reflexivity|]. cbn [Sql.like option_map] in Hlike. congruence.
  - intros first others -> ->.
    unfold Sql.where_, prefix_pattern. cbn [app filter Sql.like option_map].
    rewrite like_percent_only. reflexivity.
Qed.

Lemma resolved_identifier_is_a_session_witness :
  length (lit "bbbb") < 36 /\
  resolve_session_id Demo.store (lit "bbbb") = Resolved (lit "bbbb3333") /\
  exists s,
    In s (sessions Demo.store) /\ session_id s = lit "bbbb3333"
    /\ Sql.like_match (prefix_pattern (lit "bbbb")) (lit "bbbb3333") = true.
Proof.
  split; [vm_compute; lia|]. split; [reflexivity|].
  apply (proj1 (@resolved_identifier_is_a_session Demo.store (lit "bbbb")
                  ltac:(vm_compute; lia))).
  reflexivity.
Defined.

Lemma topics_nil_iff st sid :
  topics st sid = []
  <-> Forall (fun t => topic_session_id t <> sid) (session_topics st).
Proof.
  unfold topics. split.
  - intros H. apply map_eq_nil in H.
    assert (Hn : Sql.where_ (topic_of sid) (session_topics st) = []).
    { apply Permutation_nil. rewrite <- H. apply order_by_perm. }
    apply Forall_forall. intros t Ht Heq.
    assert (Hin : In t (Sql.where_ (topic_of sid) (session_topics st))).
    { apply filter_In. split; [exact Ht|]. unfold topic_of.
      cbn [Sql.is_true]. now rewrite (proj2 (str_eqb_eq _ _) Heq). }
    rewrite Hn in Hin. contradiction.
  - intros H.
    assert (Hn : Sql.where_ (topic_of sid) (session_topics st) = []).
    { unfold Sql.where_. induction H as [|t l Ht _ IH]; [reflexivity|].
      cbn [filter]. unfold topic_of at 1. cbn [Sql.is_true].
      destruct (Sql.str_eqb (topic_session_id t) sid) eqn:He; [|exact IH].
      apply str_eqb_eq in He. contradiction. }
    now rewrite Hn.
Qed.

(** X13.  An identifier of 36 characters or more is looked up as it is,
    without a check that such a session exists: when the store has no
    topic entry under it, the [topics] command prints that no topics are
    recorded for the session (its first eight characters), not that no
    session was found. *)
Theorem topics_command_unknown_full_identifier :
  forall st sid,
    36 <= length sid ->
    Forall (fun t => topic_session_id t <> sid) (session_topics st) ->
    main_topics st sid
    = Ok [Line (lit "No topics recorded for session " ++ firstn 8 sid)].
Proof.
  intros st sid Hlen Hnone. unfold main_topics, resolve_session_id.
  destruct (Nat.ltb_spec (length sid) 36); [lia|].
  now rewrite (proj2 (topics_nil_iff st sid) Hnone).
Qed.

Lemma topics_command_unknown_full_identifier_witness :
  36 <= length (lit "00000000-0000-0000-0000-000000000000") /\
  main_topics Demo.store (lit "00000000-0000-0000-0000-000000000000")
  = Ok [Line (lit "No topics recorded for session " ++ lit "00000000")].
Proof.
  split; [vm_compute; lia|].
  apply topics_command_unknown_full_identifier.
  - vm_compute. lia.
  - repeat constructor; discriminate.
Defined.

(** ** [format_result] *)

Lemma join_items_spec items :
  forall i,
    (exists strs, join_items i items = Ok strs /\ items = map Some strs)
    \/ (In None items /\ exists e, join_items i items = Raise e).
Proof.
  induction items as [|[s|] items IH]; intros i.
  - left. now exists [].
  - cbn [join_items]. destruct (IH (i + 1)%Z) as [(strs & -> & ->) | (Hin & e & ->)].
    + left. now exists (s :: strs).
    + right. split; [now right | now exists e].
  - right. split; [now left|]. cbn [join_items]. eauto.
Qed.

(** X14.  When [format_result] returns, its lines are the title line
    first and the resume command with the full session identifier last,
    with at most four lines (metadata, snippet, topics, tags) between
    them. *)
Theorem format_result_first_and_last_line :
  forall r show_topics lines,
    format_lines r show_topics = Ok lines ->
    format_result r show_topics = Ok (str_join [newline] lines)
    /\ exists middle,
        lines = title_line r :: middle ++ [resume_line r]
        /\ length middle <= 4.
Proof.
  intros r show_topics lines H. split.
  { unfold format_result. now rewrite H. }
  exists (removelast (tl lines)).
  unfold format_lines in H.
  destruct (format_meta r) as [|m meta];
    destruct (r_snippet r) as [[[|c s]|]|];
    destruct show_topics;
    try destruct (r_topics r) as [|t ts];
    try destruct (join_items 0 _) as [strs|e];
    cbn [bind] in H;
    destruct (truthy_text (r_tags r)) as [tags|];
    try discriminate;
    injection H as <-; cbn [app tl removelast length]; split;
    first [reflexivity | lia].
Qed.

Lemma format_result_first_and_last_line_witness :
  exists lines,
    format_lines (enrich Demo.store Demo.beta None) true = Ok lines
    /\ exists middle,
        lines = title_line (enrich Demo.store Demo.beta None)
                :: middle ++ [resume_line (enrich Demo.store Demo.beta None)]
        /\ length middle <= 4.
Proof.
  eexists. split; [reflexivity|].
  apply (@format_result_first_and_last_line
           (enrich Demo.store Demo.beta None) true).
  reflexivity.
Defined.

(** X15.  [format_result] raises exactly when topics are to be shown and
    the text of one of the first five topics of the result is NULL: the
    join of the topic texts fails on it. *)
Theorem format_result_raises_on_null_topic :
  forall r show_topics,
    (exists e, format_result r show_topics = Raise e)
    <-> show_topics = true
        /\ In None (map brief_topic (firstn 5 (r_topics r))).
Proof.
  intros r show_topics. unfold format_result, format_lines.
  destruct show_topics.
  - destruct (r_topics r) as [|t ts] eqn:Ht.
    + cbn [bind firstn map]. split.
      * intros [e H]. discriminate.
      * intros [_ []].
    + destruct (join_items_spec (map brief_topic (firstn 5 (t :: ts))) 0)
        as [(strs & Hok & Hmap) | (Hin & e & Hraise)].
      * rewrite Hok. cbn [bind]. split.
        -- intros [e H]. discriminate.
        -- intros [_ Hin]. rewrite Hmap in Hin. apply in_map_iff in Hin.
           destruct Hin as (x & Hx & _). discriminate.
      * rewrite Hraise. cbn [bind]. split; [tauto | eauto].
  - cbn [bind]. split.
    + intros [e H]. discriminate.
    + intros [H _]. discriminate.
Qed.

(** X16.  The title shown is never longer than 70 characters: a longer
    one is cut to its first 67 characters and an ellipsis.  Without a
    display title and without a title (NULL or empty), the title shown is
    [(unnamed)]. *)
Theorem display_title_is_bounded :
  forall r,
    length (display_title r) <= 70
    /\ (truthy_text (r_title_display r) = None ->
        truthy_text (r_title r) = None ->
        display_title r = lit "(unnamed)")
    /\ (forall t,
           truthy_text (r_title_display r) = Some t ->
           display_title r
           = if 70 <? length t then firstn 67 t ++ lit "..." else t).
Proof.
  intros r. unfold display_title. split; [|split].
  - match goal with
    | |- context [if 70 <? length ?title then _ else _] =>
        destruct (Nat.ltb_spec 70 (length title)) as [Hlong|Hshort]
    end.
    + rewrite length_app, length_firstn. cbn [lit length]. lia.
    + exact Hshort.
  - intros -> ->. reflexivity.
  - intros t ->. reflexivity.
Qed.

Lemma display_title_is_bounded_witness :
  truthy_text (r_title_display long_titled) = Some (repeat 97%N 80) /\
  display_title long_titled = repeat 97%N 67 ++ lit "...".
Proof.
  split; [reflexivity|].
  rewrite (proj2 (proj2 (display_title_is_bounded long_titled))
             (repeat 97%N 80) eq_refl).
  reflexivity.
Defined.

Lemma replace_newline_free fuel s :
  length s <= fuel -> ~ In newline (replace_loop fuel s [newline] [space]).
Proof.
  revert s. induction fuel as [|fuel IH]; intros s Hlen.
  - destruct s; [intros [] | cbn [length] in Hlen; lia].
  - destruct s as [|c tl]; [intros []|].
    cbn [replace_loop starts_with length skipn]. cbn [length] in Hlen.
    rewrite andb_true_r.
    destruct (N.eqb_spec newline c) as [<-|Hne].
    + cbn [app]. intros [H|H]; [discriminate|]. revert H. apply IH. lia.
    + intros [H|H]; [congruence|]. revert H. apply IH. lia.
Qed.

(** X17.  The snippet shown is at most 120 characters long and holds no
    newline, so the snippet stays on one line of the output. *)
Theorem clean_snippet_is_one_short_line :
  forall snippet,
    length (clean_snippet snippet) <= 120
    /\ ~ In newline (clean_snippet snippet).
Proof.
  intros snippet. unfold clean_snippet. split.
  - rewrite length_firstn. lia.
  - intros H.
    set (s := str_replace (str_replace snippet (lit ">>>") []) (lit "<<<") []) in *.
    assert (Hin : In newline (str_replace s [newline] [space])).
    { rewrite <- (firstn_skipn 120 (str_replace s [newline] [space])).
      apply in_or_app. now left. }
    revert Hin. apply replace_newline_free. lia.
Qed.

(** X18.  Only the first five topics of a result are shown, and none when
    topics are not to be shown: formatting a result gives the same outcome
    as formatting it with just its first five topics, and without topics
    shown the same as formatting it with no topic at all. *)
Theorem format_result_shows_five_topics :
  forall r show_topics,
    format_result r show_topics
    = format_result (set_topics r (firstn 5 (r_topics r))) show_topics
    /\ format_result r false = format_result (set_topics r []) true.
Proof.
  intros r show_topics. split.
  - unfold format_result, format_lines.
    cbn [set_topics r_topics r_snippet].
    change (format_meta (set_topics r (firstn 5 (r_topics r)))) with (format_meta r).
    change (title_line (set_topics r (firstn 5 (r_topics r)))) with (title_line r).
    change (resume_line (set_topics r (firstn 5 (r_topics r)))) with (resume_line r).
    change (r_tags (set_topics r (firstn 5 (r_topics r)))) with (r_tags r).
    destruct show_topics; [|reflexivity].
    destruct (r_topics r) as [|t ts]; [reflexivity|].
    change (firstn 5 (t :: ts)) with (t :: firstn 4 ts). cbv iota.
    change (firstn 5 (t :: firstn 4 ts)) with (t :: firstn 4 (firstn 4 ts)).
    rewrite firstn_firstn. change (Nat.min 4 4) with 4.
    reflexivity.
  - reflexivity.
Qed.

(** ** [tools_usage] *)

Lemma int_leb_total a b : int_leb a b = true \/ int_leb b a = true.
Proof.
  destruct a as [x|], b as [y|]; simpl; auto.
  destruct (Z.leb_spec x y), (Z.leb_spec y x); auto; lia.
Qed.

Lemma int_leb_trans a b c :
  int_leb a b = true -> int_leb b c = true -> int_leb a c = true.
Proof.
  destruct a as [x|], b as [y|], c as [z|]; simpl; try congruence.
  rewrite !Z.leb_le. lia.
Qed.

Lemma text_eqb_eq a b : text_eqb a b = true <-> a = b.
Proof.
  destruct a as [x|], b as [y|]; simpl.
  - rewrite str_eqb_eq. split; congruence.
  - split; discriminate.
  - split; discriminate.
  - tauto.
Qed.

Section Distinct.
Variable A : Type.
Variable eqb : A -> A -> bool.
Hypothesis eqb_eq : forall a b, eqb a b = true <-> a = b.

Lemma distinct_In l x : In x (distinct eqb l) <-> In x l.
Proof.
  induction l as [|y l IH]; cbn [distinct]; [tauto|].
  cbn [In]. rewrite filter_In, IH, negb_true_iff.
  destruct (eqb y x) eqn:E.
  - apply eqb_eq in E. subst. split; auto.
  - assert (y <> x) by (intros Heq; apply eqb_eq in Heq; congruence).
    split; [tauto|]. intros [Heq|Hin]; [contradiction | auto].
Qed.

Lemma distinct_NoDup l : NoDup (distinct eqb l).
Proof.
  induction l as [|y l IH]; cbn [distinct]; constructor.
  - rewrite filter_In, negb_true_iff. intros [_ E].
    rewrite (proj2 (eqb_eq y y) eq_refl) in E. discriminate.
  - now apply NoDup_filter.
Qed.

Lemma distinct_length l : length (distinct eqb l) <= length l.
Proof.
  induction l as [|y l IH]; cbn [distinct length]; [lia|].
  pose proof (filter_length_bound (fun z => negb (eqb y z)) (distinct eqb l)). lia.
Qed.

Lemma distinct_nonempty l : l <> [] -> 1 <= length (distinct eqb l).
Proof. destruct l; [contradiction|]. cbn [distinct length]. lia. Qed.
End Distinct.

Lemma zsum_cons x l : zsum (x :: l) = (x + zsum l)%Z.
Proof. reflexivity. Qed.

Lemma zsum_app a b : zsum (a ++ b) = (zsum a + zsum b)%Z.
Proof.
  induction a as [|x a IH]; [reflexivity|].
  cbn [app]. rewrite !zsum_cons, IH. lia.
Qed.

Lemma zsum_perm a b : Permutation a b -> zsum a = zsum b.
Proof.
  induction 1 as [| x a b _ IH | x y a | a b c _ IH1 _ IH2];
    rewrite ?zsum_cons; lia.
Qed.

Lemma zsum_nonneg l : Forall (fun x => (0 <= x)%Z) l -> (0 <= zsum l)%Z.
Proof.
  induction 1 as [|x l Hx _ IH]; [cbn; lia|]. rewrite zsum_cons. lia.
Qed.

Lemma zsum_filter_le (A : Type) (f : A -> Z) (p : A -> bool) l :
  Forall (fun a => (0 <= f a)%Z) l ->
  (zsum (map f (filter p l)) <= zsum (map f l))%Z.
Proof.
  induction 1 as [|a l Ha _ IH]; [cbn; lia|].
  cbn [filter map]. destruct (p a); cbn [map]; rewrite ?zsum_cons; lia.
Qed.

(** When the sum is returned, it is the accumulator plus the numbers. *)
Lemma sum_from_ok xs :
  forall acc r,
    sum_from acc xs = Ok r ->
    count_of r = (count_of acc + zsum (map count_of xs))%Z.
Proof.
  induction xs as [|[n|] xs IH]; intros acc r; cbn [sum_from map].
  - intros H. injection H as <-. cbn. lia.
  - destruct (in_int64 _); [|discriminate]. intros H. apply IH in H.
    rewrite H, zsum_cons. destruct acc; cbn [count_of]; lia.
  - intros H. apply IH in H. rewrite H, zsum_cons. cbn [count_of]. lia.
Qed.

(** The only failure of a sum is the integer overflow. *)
Lemma sum_from_raise xs :
  forall acc e,
    sum_from acc xs = Raise e ->
    e = OperationalError (lit "integer overflow").
Proof.
  induction xs as [|[n|] xs IH]; intros acc e; cbn [sum_from].
  - discriminate.
  - destruct (in_int64 _); [apply IH|]. intros H. now injection H as <-.
  - apply IH.
Qed.

(** Numbers that are not negative and add up within the range of INTEGER
    are summed without overflow. *)
Lemma sum_from_returns xs :
  forall acc,
    Forall (fun x => (0 <= count_of x)%Z) xs ->
    (0 <= count_of acc)%Z ->
    (count_of acc + zsum (map count_of xs) <= int64_max)%Z ->
    exists r, sum_from acc xs = Ok r.
Proof.
  induction xs as [|[n|] xs IH]; intros acc Hxs Hacc Hmax; cbn [sum_from].
  - eauto.
  - inversion Hxs as [|? ? Hn Hrest]; subst. cbn [count_of] in Hn.
    cbn [map] in Hmax. rewrite zsum_cons in Hmax. cbn [count_of] in Hmax.
    assert (Hz' : (0 <= zsum (map count_of xs))%Z).
    { apply zsum_nonneg. apply Forall_map. exact Hrest. }
    set (total := match acc with None => n | Some a => (a + n)%Z end).
    assert (Ht : total = (count_of acc + n)%Z)
      by (unfold total; destruct acc; cbn [count_of]; lia).
    assert (Hin : in_int64 total = true).
    { unfold in_int64, int64_min. unfold int64_max in Hmax.
      apply andb_true_iff. rewrite !Z.leb_le. unfold int64_max. lia. }
    rewrite Hin. apply IH; [exact Hrest | cbn [count_of]; lia |].
    cbn [count_of]. lia.
  - inversion Hxs as [|? ? _ Hrest]; subst.
    cbn [map] in Hmax. rewrite zsum_cons in Hmax. cbn [count_of] in Hmax.
    apply IH; [exact Hrest | exact Hacc | lia].
Qed.

Section Collect.
Variable A B : Type.
Variable f : A -> result B.

Lemma collect_ok l :
  forall bs, collect f l = Ok bs -> Forall2 (fun a b => f a = Ok b) l bs.
Proof.
  induction l as [|a l IH]; intros bs; cbn [collect].
  - intros H. injection H as <-. constructor.
  - destruct (f a) as [b|e] eqn:Hfa; cbn [bind]; [|discriminate].
    destruct (collect f l) as [bs'|e]; cbn [bind]; [|discriminate].
    intros H. injection H as <-. constructor; [exact Hfa | now apply IH].
Qed.

Lemma collect_raise l :
  forall e, collect f l = Raise e -> exists a, In a l /\ f a = Raise e.
Proof.
  induction l as [|a l IH]; intros e; cbn [collect]; [discriminate|].
  destruct (f a) as [b|e'] eqn:Hfa; cbn [bind].
  - destruct (collect f l) as [bs'|e'']; cbn [bind]; [discriminate|].
    intros H. injection H as <-. destruct (IH _ eq_refl) as (a' & Hin & Ha').
    exists a'. split; [now right | exact Ha'].
  - intros H. injection H as <-. exists a. split; [now left | exact Hfa].
Qed.

Lemma collect_returns l :
  (forall a, In a l -> exists b, f a = Ok b) -> exists bs, collect f l = Ok bs.
Proof.
  induction l as [|a l IH]; intros H; cbn [collect]; [eauto|].
  destruct (H a (or_introl eq_refl)) as [b ->]. cbn [bind].
  destruct IH as [bs ->]; [intros a' Ha'; apply H; now right|].
  cbn [bind]. eauto.
Qed.
End Collect.

Section Grouping.
Variable A K : Type.
Variable eqb : K -> K -> bool.
Hypothesis eqb_eq : forall a b, eqb a b = true <-> a = b.
Variable key : A -> K.
Variable f : A -> Z.

Lemma zsum_pick_none keys k (v : Z) :
  ~ In k keys ->
  zsum (map (fun k' => if eqb k k' then v else 0%Z) keys) = 0%Z.
Proof.
  induction keys as [|x keys IH]; intros Hnin; [reflexivity|].
  cbn [map]. rewrite zsum_cons.
  destruct (eqb k x) eqn:E.
  - apply eqb_eq in E. subst. exfalso. apply Hnin. now left.
  - rewrite IH; [lia|]. intros Hx. apply Hnin. now right.
Qed.

Lemma zsum_pick keys k (v : Z) :
  NoDup keys -> In k keys ->
  zsum (map (fun k' => if eqb k k' then v else 0%Z) keys) = v.
Proof.
  induction 1 as [|k' keys Hnin _ IH]; [intros []|].
  cbn [map]. rewrite zsum_cons.
  intros [<-|Hin].
  - rewrite (proj2 (eqb_eq k' k') eq_refl), zsum_pick_none by exact Hnin. lia.
  - destruct (eqb k k') eqn:E.
    + apply eqb_eq in E. subst. contradiction.
    + rewrite IH by exact Hin. lia.
Qed.

Lemma zsum_zero keys : zsum (map (fun _ : K => 0%Z) keys) = 0%Z.
Proof.
  induction keys as [|k keys IH]; [reflexivity|].
  cbn [map]. rewrite zsum_cons, IH. reflexivity.
Qed.

Lemma zsum_groups_cons keys r rows :
  zsum (map (fun k => zsum (map f (filter (fun x => eqb (key x) k) (r :: rows)))) keys)
  = (zsum (map (fun k => if eqb (key r) k then f r else 0%Z) keys)
     + zsum (map (fun k => zsum (map f (filter (fun x => eqb (key x) k) rows))) keys))%Z.
Proof.
  induction keys as [|k keys IH]; [reflexivity|].
  cbn [map]. rewrite !zsum_cons, IH. cbn [filter].
  destruct (eqb (key r) k); cbn [map]; rewrite ?zsum_cons; lia.
Qed.

(** Summing group by group is summing over all rows. *)
Lemma zsum_groups keys rows :
  NoDup keys -> (forall r, In r rows -> In (key r) keys) ->
  zsum (map (fun k => zsum (map f (filter (fun r => eqb (key r) k) rows))) keys)
  = zsum (map f rows).
Proof.
  intros Hnd. induction rows as [|r rows IH]; intros Hin.
  - cbn [filter map]. apply zsum_zero.
  - rewrite zsum_groups_cons, IH by (intros x Hx; apply Hin; now right).
    rewrite zsum_pick; [| exact Hnd | apply Hin; now left].
    cbn [map]. now rewrite zsum_cons.
Qed.
End Grouping.

Lemma join_tools_In st u s :
  In (u, s) (join_tools st) <->
  In u (session_tools st) /\ In s (sessions st)
  /\ session_id s = tool_session_id u.
Proof.
  unfold join_tools. rewrite in_flat_map. split.
  - intros (u' & Hu & Hin). apply in_map_iff in Hin.
    destruct Hin as (s' & Heq & Hs). injection Heq as -> ->.
    apply filter_In in Hs. destruct Hs as [Hs He].
    apply str_eqb_eq in He. tauto.
  - intros (Hu & Hs & He). exists u. split; [exact Hu|].
    apply in_map_iff. exists s. split; [reflexivity|].
    apply filter_In. split; [exact Hs|]. now apply str_eqb_eq.
Qed.

(** X19.  Asked for a tool name, [tools_usage] returns only rows that join
    a usage row whose tool name is not NULL and matches the pattern with
    the session it belongs to; the rows are in descending order of use
    count, and for a limit that is not negative there are at most [limit]
    of them. *)
Theorem tools_usage_by_name :
  forall st name limit,
    0 < length name ->
    exists rows,
      tools_usage st (Some name) limit = Ok (BySession rows)
      /\ Forall
           (fun r =>
              exists u s t,
                In u (session_tools st) /\ In s (sessions st)
                /\ session_id s = tool_session_id u
                /\ r = tool_session (u, s)
                /\ tool_name u = Some t
                /\ Sql.like_match (contains_pattern name) t = true)
           rows
      /\ StronglySorted
           (fun a b => int_leb (ts_use_count b) (ts_use_count a) = true) rows
      /\ ((0 <= limit)%Z -> length rows <= Z.to_nat limit).
Proof.
  intros st name limit Hname. unfold tools_usage.
  destruct name as [|c name]; [cbn [length] in Hname; lia|].
  cbn [truthy_str]. eexists. split; [reflexivity|].
  set (matched := Sql.where_
                    (fun row => Sql.like (tool_name (fst row))
                                  (contains_pattern (c :: name)))
                    (join_tools st)).
  split; [|split].
  - apply Forall_forall. intros r Hr. apply in_map_iff in Hr.
    destruct Hr as ([u s] & <- & Hin). apply limit_incl in Hin.
    apply (Permutation_in _ (order_by_perm _ _)) in Hin.
    apply filter_In in Hin. destruct Hin as [Hjoin Hlike].
    apply join_tools_In in Hjoin. apply is_true_spec, like_true in Hlike.
    destruct Hlike as (t & Ht & Hm). cbn [fst] in Ht.
    exists u, s, t. tauto.
  - apply sorted_map with (f := tool_session)
                          (R := fun a b => int_leb (ts_use_count b) (ts_use_count a) = true).
    destruct (limit_split limit (Sql.order_by by_use_count_desc matched))
      as [dropped Hsplit].
    apply sorted_prefix with dropped. rewrite Hsplit.
    apply (@order_by_sorted _ by_use_count_desc).
    + intros a b. apply int_leb_total.
    + intros a b d. unfold by_use_count_desc. intros H1 H2.
      now apply int_leb_trans with (use_count (fst b)).
  - intros Hl. rewrite length_map. now apply limit_bound.
Qed.

Lemma tools_usage_by_name_witness :
  0 < length (lit "bash") /\
  exists rows,
    tools_usage DemoTools.store (Some (lit "bash")) 2 = Ok (BySession rows)
    /\ StronglySorted
         (fun a b => int_leb (ts_use_count b) (ts_use_count a) = true) rows
    /\ ((0 <= 2)%Z -> length rows <= Z.to_nat 2).
Proof.
  split; [vm_compute; lia|].
  destruct (@tools_usage_by_name DemoTools.store (lit "bash") 2)
    as (rows & H1 & _ & H2 & H3); [vm_compute; lia|].
  exists rows. repeat split; assumption.
Defined.

Lemma tool_keys_perm st :
  Permutation (tool_keys st) (distinct text_eqb (map tool_name (session_tools st))).
Proof. apply order_by_perm. Qed.

Lemma tool_keys_NoDup st : NoDup (tool_keys st).
Proof.
  apply (Permutation_NoDup (Permutation_sym (tool_keys_perm st))).
  apply distinct_NoDup, text_eqb_eq.
Qed.

Lemma tool_keys_In st k :
  In k (tool_keys st) <-> In k (map tool_name (session_tools st)).
Proof.
  split.
  - intros H. apply (distinct_In text_eqb text_eqb_eq).
    exact (Permutation_in _ (tool_keys_perm st) H).
  - intros H. apply (distinct_In text_eqb text_eqb_eq) in H.
    exact (Permutation_in _ (Permutation_sym (tool_keys_perm st)) H).
Qed.

Lemma tool_keys_length st : length (tool_keys st) <= length (session_tools st).
Proof.
  rewrite (Permutation_length (tool_keys_perm st)).
  pose proof (distinct_length text_eqb (map tool_name (session_tools st))) as Hd.
  now rewrite length_map in Hd.
Qed.

(** The row of a group, when its sum is returned. *)
Lemma tool_total_ok st k t :
  tool_total st k = Ok t ->
  tt_tool_name t = k
  /\ count_of (tt_total t)
     = zsum (map (fun u => count_of (use_count u)) (tool_group st k))
  /\ tt_session_count t
     = Z.of_nat (length (distinct Sql.str_eqb (map tool_session_id (tool_group st k)))).
Proof.
  unfold tool_total, sql_sum.
  destruct (sum_from None (map use_count (tool_group st k))) as [total|e] eqn:Hs;
    cbn [bind]; [|discriminate].
  intros H. injection H as <-. cbn [tt_tool_name tt_total tt_session_count].
  split; [reflexivity|]. split; [|reflexivity].
  apply sum_from_ok in Hs. rewrite Hs, map_map. cbn [count_of]. lia.
Qed.

Lemma tool_total_raise st k e :
  tool_total st k = Raise e -> e = OperationalError (lit "integer overflow").
Proof.
  unfold tool_total, sql_sum.
  destruct (sum_from None (map use_count (tool_group st k))) as [total|e'] eqn:Hs;
    cbn [bind]; [discriminate|].
  intros H. injection H as <-. now apply sum_from_raise in Hs.
Qed.

Lemma tool_totals_names st keys totals :
  Forall2 (fun k t => tool_total st k = Ok t) keys totals ->
  map tt_tool_name totals = keys.
Proof.
  induction 1 as [|k t keys totals Hk _ IH]; [reflexivity|].
  cbn [map]. rewrite IH. now destruct (@tool_total_ok _ _ _ Hk) as [-> _].
Qed.

Lemma tool_totals_sums st keys totals :
  Forall2 (fun k t => tool_total st k = Ok t) keys totals ->
  map (fun t => count_of (tt_total t)) totals
  = map (fun k => zsum (map (fun u => count_of (use_count u)) (tool_group st k)))
      keys.
Proof.
  induction 1 as [|k t keys totals Hk _ IH]; [reflexivity|].
  cbn [map]. rewrite IH. now destruct (@tool_total_ok _ _ _ Hk) as (_ & -> & _).
Qed.

Lemma tool_totals_In st keys totals t :
  Forall2 (fun k t => tool_total st k = Ok t) keys totals ->
  In t totals -> In (tt_tool_name t) keys /\ tool_total st (tt_tool_name t) = Ok t.
Proof.
  induction 1 as [|k t' keys totals Hk _ IH]; [intros []|].
  intros [<-|Hin].
  - destruct (@tool_total_ok _ _ _ Hk) as [-> _]. split; [now left | exact Hk].
  - destruct (IH Hin) as [H1 H2]. split; [now right | exact H2].
Qed.

(** Use counts that are not negative and add up within the range of
    INTEGER: every group is summed, and the grouped query returns. *)
Lemma tools_usage_returns st tool limit :
  truthy_str tool = None ->
  Forall (fun u => (0 <= count_of (use_count u))%Z) (session_tools st) ->
  (zsum (map (fun u => count_of (use_count u)) (session_tools st)) <= int64_max)%Z ->
  exists rows, tools_usage st tool limit = Ok (Totals rows).
Proof.
  intros Htool Hpos Hmax. unfold tools_usage. rewrite Htool.
  destruct (limit =? 0)%Z; [eauto|].
  destruct (@collect_returns _ _ (tool_total st) (tool_keys st)) as [totals ->];
    [|cbn [bind]; eauto].
  intros k _. unfold tool_total, sql_sum.
  destruct (@sum_from_returns (map use_count (tool_group st k)) None) as [r ->];
    [| cbn; lia | | cbn [bind]; eauto].
  - apply Forall_map. unfold tool_group.
    apply Forall_forall. intros u Hu. apply filter_In in Hu.
    rewrite Forall_forall in Hpos. now apply Hpos.
  - cbn [count_of]. rewrite map_map.
    pose proof (zsum_filter_le (fun u => count_of (use_count u))
                  (fun u => text_eqb (tool_name u) k) Hpos) as Hle.
    unfold tool_group. lia.
Qed.

(** X20.  Asked for no tool name (absent or empty), [tools_usage], when
    it returns, returns one row for each distinct tool name of the usage
    table, never two for the same name; the row is the one the store
    computes for the group of that name: it holds the sum of the use
    counts of that tool (NULLs skipped) and the number of distinct
    sessions using it, at least one; the rows are in descending order of
    the sum, and for a limit that is not negative there are at most
    [limit] of them.  The only error it raises is the integer overflow of
    the sum of one group, and never with the limit 0.  It returns
    whenever no use count is negative and the use counts of the table
    add up within the range of INTEGER. *)
Theorem tools_usage_totals :
  forall st tool limit,
    truthy_str tool = None ->
    (forall out,
        tools_usage st tool limit = Ok out ->
        exists rows,
          out = Totals rows
          /\ NoDup (map tt_tool_name rows)
          /\ Forall
               (fun r =>
                  In (tt_tool_name r) (map tool_name (session_tools st))
                  /\ tool_total st (tt_tool_name r) = Ok r
                  /\ count_of (tt_total r)
                     = zsum (map (fun u => count_of (use_count u))
                               (tool_group st (tt_tool_name r)))
                  /\ (1 <= tt_session_count r)%Z)
               rows
          /\ StronglySorted
               (fun a b => int_leb (tt_total b) (tt_total a) = true) rows
          /\ ((0 <= limit)%Z -> length rows <= Z.to_nat limit))
    /\ (forall e,
          tools_usage st tool limit = Raise e ->
          e = OperationalError (lit "integer overflow")
          /\ limit <> 0%Z
          /\ exists k,
              In k (map tool_name (session_tools st))
              /\ tool_total st k = Raise e)
    /\ (Forall (fun u => (0 <= count_of (use_count u))%Z) (session_tools st) ->
        (zsum (map (fun u => count_of (use_count u)) (session_tools st))
         <= int64_max)%Z ->
        exists rows, tools_usage st tool limit = Ok (Totals rows)).
Proof.
  intros st tool limit Htool.
  split; [|split; [|now apply tools_usage_returns]].
  - unfold tools_usage. rewrite Htool.
    destruct (Z.eqb_spec limit 0) as [->|Hz].
    { intros out H. injection H as <-. exists []. split; [reflexivity|].
      split; [constructor|]. split; [constructor|]. split; [constructor|].
      intros _. cbn [length]. lia. }
    destruct (collect (tool_total st) (tool_keys st)) as [totals|e] eqn:Hc;
      cbn [bind]; [|discriminate].
    intros out H. injection H as <-.
    apply collect_ok in Hc.
    set (sorted := Sql.order_by by_total_desc totals).
    exists (Sql.limit limit sorted). split; [reflexivity|].
    destruct (limit_split limit sorted) as [dropped Hsplit].
    assert (Hperm : Permutation sorted totals) by apply order_by_perm.
    split; [|split; [|split]].
    + assert (Hnd : NoDup (map tt_tool_name sorted)).
      { apply (Permutation_NoDup (l := tool_keys st)).
        - rewrite <- (@tool_totals_names _ _ _ Hc). apply Permutation_map.
          now symmetry.
        - apply tool_keys_NoDup. }
      rewrite <- Hsplit, map_app in Hnd. now apply NoDup_app_remove_r in Hnd.
    + apply Forall_forall. intros r Hr. apply limit_incl in Hr.
      apply (Permutation_in _ Hperm) in Hr.
      destruct (@tool_totals_In _ _ _ _ Hc Hr) as [Hk Hr'].
      apply tool_keys_In in Hk.
      destruct (@tool_total_ok _ _ _ Hr') as (_ & Hsum & Hcount).
      split; [exact Hk|]. split; [exact Hr'|]. split; [exact Hsum|].
      apply in_map_iff in Hk. destruct Hk as (u & Hu & Hin).
      assert (Hg : In u (tool_group st (tt_tool_name r))).
      { apply filter_In. split; [exact Hin|]. now apply text_eqb_eq. }
      assert (Hne : map tool_session_id (tool_group st (tt_tool_name r)) <> []).
      { destruct (tool_group st (tt_tool_name r)); [contradiction | discriminate]. }
      pose proof (distinct_nonempty Sql.str_eqb Hne). lia.
    + apply sorted_prefix with dropped. rewrite Hsplit.
      apply (@order_by_sorted _ by_total_desc).
      * intros a b. apply int_leb_total.
      * intros a b d. unfold by_total_desc. intros H1 H2.
        now apply int_leb_trans with (tt_total b).
    + intros Hl. now apply limit_bound.
  - unfold tools_usage. rewrite Htool.
    destruct (Z.eqb_spec limit 0) as [->|Hz]; [discriminate|].
    destruct (collect (tool_total st) (tool_keys st)) as [totals|e'] eqn:Hc;
      cbn [bind]; [discriminate|].
    intros e H. injection H as <-.
    apply collect_raise in Hc. destruct Hc as (k & Hk & Hr).
    split; [now apply tool_total_raise in Hr|]. split; [exact Hz|].
    exists k. split; [now apply tool_keys_In | exact Hr].
Qed.

Lemma tools_usage_totals_witness :
  truthy_str (Some []) = None /\
  exists rows,
    tools_usage DemoTools.store (Some []) 20 = Ok (Totals rows)
    /\ NoDup (map tt_tool_name rows)
    /\ ((0 <= 20)%Z -> length rows <= Z.to_nat 20).
Proof.
  split; [reflexivity|].
  destruct (proj1 (@tools_usage_totals DemoTools.store (Some []) 20 eq_refl)
              _ eq_refl)
    as (rows & H1 & H2 & _ & _ & H3).
  exists rows. split; [now rewrite <- H1|]. split; assumption.
Defined.

(** X21.  With a limit of at least the number of usage rows, the sums of
    the grouped rows that [tools_usage] returns add up to the sum of all
    use counts of the usage table (a NULL counting for nothing): no use
    is lost or counted twice.  It returns such rows whenever no use count
    is negative and the use counts add up within the range of INTEGER. *)
Theorem tools_usage_totals_add_up :
  forall st tool limit,
    truthy_str tool = None ->
    (Z.of_nat (length (session_tools st)) <= limit)%Z ->
    (forall rows,
        tools_usage st tool limit = Ok (Totals rows) ->
        zsum (map (fun r => count_of (tt_total r)) rows)
        = zsum (map (fun u => count_of (use_count u)) (session_tools st)))
    /\ (Forall (fun u => (0 <= count_of (use_count u))%Z) (session_tools st) ->
        (zsum (map (fun u => count_of (use_count u)) (session_tools st))
         <= int64_max)%Z ->
        exists rows,
          tools_usage st tool limit = Ok (Totals rows)
          /\ zsum (map (fun r => count_of (tt_total r)) rows)
             = zsum (map (fun u => count_of (use_count u)) (session_tools st))).
Proof.
  intros st tool limit Htool Hlimit.
  assert (Hsum : forall rows,
             tools_usage st tool limit = Ok (Totals rows) ->
             zsum (map (fun r => count_of (tt_total r)) rows)
             = zsum (map (fun u => count_of (use_count u)) (session_tools st))).
  { unfold tools_usage. rewrite Htool.
    destruct (Z.eqb_spec limit 0) as [->|Hz].
    { intros rows H. injection H as <-.
      destruct (session_tools st); [reflexivity | cbn [length] in Hlimit; lia]. }
    destruct (collect (tool_total st) (tool_keys st)) as [totals|e] eqn:Hc;
      cbn [bind]; [|discriminate].
    intros rows H. injection H as <-. apply collect_ok in Hc.
    rewrite limit_all.
    2:{ rewrite order_by_length, <- (Forall2_length Hc).
        pose proof (tool_keys_length st). lia. }
    rewrite (zsum_perm (Permutation_map _ (order_by_perm by_total_desc _))).
    rewrite (@tool_totals_sums _ _ _ Hc).
    apply (@zsum_groups ToolUse Sql.text text_eqb text_eqb_eq tool_name
             (fun u => count_of (use_count u)) (tool_keys st) (session_tools st)).
    - apply tool_keys_NoDup.
    - intros u Hu. apply tool_keys_In. now apply in_map. }
  split; [exact Hsum|].
  intros Hpos Hmax.
  destruct (@tools_usage_returns st tool limit Htool Hpos Hmax) as [rows Hrows].
  exists rows. split; [exact Hrows | now apply Hsum].
Qed.

Lemma tools_usage_totals_add_up_witness :
  truthy_str None = None /\
  (Z.of_nat (length (session_tools DemoTools.store)) <= 20)%Z /\
  exists rows,
    tools_usage DemoTools.store None 20 = Ok (Totals rows)
    /\ zsum (map (fun r => count_of (tt_total r)) rows) = 11%Z.
Proof.
  split; [reflexivity|]. split; [vm_compute; discriminate|].
  destruct (proj2 (@tools_usage_totals_add_up DemoTools.store None 20 eq_refl
                     ltac:(vm_compute; discriminate)))
    as (rows & H1 & H2).
  - repeat constructor; vm_compute; discriminate.
  - vm_compute. discriminate.
  - exists rows. split; [exact H1|]. rewrite H2. reflexivity.
Defined.

(** ** The commands of [main] *)

Lemma Forall_clause_of (P : Cond -> Prop) v clause :
  (forall s, P (clause s)) -> Forall P (clause_of v clause).
Proof.
  intros H. unfold clause_of. destruct (truthy_str v); repeat constructor.
  apply H.
Qed.

Lemma print_formatted_spec results :
  print_formatted results
  = (texts <- format_all results ;;
     Ok (flat_map (fun text => [Line text; Line []]) texts)).
Proof.
  induction results as [|r results IH]; [reflexivity|].
  cbn [print_formatted format_all].
  destruct (format_result r true) as [text|e]; [|reflexivity].
  cbn [bind]. rewrite IH. now destruct (format_all results).
Qed.

(** X22.  The [find] command cannot ask for everything [find] offers: the
    conditions it builds never exclude a project, never compare the start
    time with a number of days, and test the compaction flag only against
    1; without [--week] no condition reads the clock, so the conditions
    are always built.  Once [find] has returned its results, the command
    fails exactly when [format_result] fails on one of them, with that
    error. *)
Theorem find_command_conditions :
  forall st clock a,
    (forall conditions,
        find_conditions clock (find_criteria a) = Ok conditions ->
        Forall
          (fun c =>
             match c with
             | NotProjectLike _ _ => False
             | HasCompactionEq v => v = 1%Z
             | StartTimeGe _ => arg_week a = true
             | _ => True
             end)
          conditions)
    /\ (arg_week a = false ->
        exists conditions,
          find_conditions clock (find_criteria a) = Ok conditions)
    /\ (forall results,
          find st clock (find_criteria a) (arg_limit a) = Ok results ->
          forall e,
            main_find st clock a = Raise e <-> format_all results = Raise e).
Proof.
  intros st clock a. split; [|split].
  - intros conditions H.
    destruct (find_conditions_shape _ _ H) as (week_part & days_part & -> & Hweek & Hdays).
    cbn [find_criteria Arg.client Arg.tag Arg.tool Arg.agent Arg.date Arg.week
         Arg.days Arg.project Arg.exclude_project Arg.has_compaction] in *.
    subst days_part.
    repeat (apply Forall_app; split);
      try (apply Forall_clause_of; intros; exact I);
      try (now constructor).
    + destruct (arg_week a).
      * destruct Hweek as (cutoff & _ & ->). repeat constructor.
      * subst week_part. constructor.
    + destruct (arg_compacted a); repeat constructor.
  - intros Hweek. unfold find_conditions.
    cbn [find_criteria Arg.client Arg.tag Arg.tool Arg.agent Arg.date Arg.week
         Arg.days Arg.project Arg.exclude_project Arg.has_compaction].
    rewrite Hweek. cbn [bind]. eauto.
  - intros results Hfind e. unfold main_find. rewrite Hfind. cbn [bind].
    destruct results as [|r results].
    + cbn [format_all]. split; discriminate.
    + rewrite print_formatted_spec.
      destruct (format_all (r :: results)); cbn [bind]; split; intros H;
        congruence.
Qed.

Lemma find_command_conditions_witness :
  let a := {| arg_client := None; arg_tag := Some (lit "hook"); arg_tool := None;
              arg_agent := None; arg_date := None; arg_week := false;
              arg_project := None; arg_compacted := true; arg_limit := 20 |} in
  arg_week a = false /\
  find_conditions Demo.clock (find_criteria a)
  = Ok [TagsLike (contains_pattern (lit "hook")); HasCompactionEq 1] /\
  exists conditions, find_conditions Demo.clock (find_criteria a) = Ok conditions.
Proof.
  cbv zeta. split; [reflexivity|]. split; [reflexivity|].
  apply (proj1 (proj2 (find_command_conditions Demo.store Demo.clock _))).
  reflexivity.
Defined.

(** X23.  Without the context flag the [search] command never looks for
    the analyzer: its outcome is the same whatever the imports find.  With
    the flag and an analyzer that is found, an error the analyzer raises
    on the first result, once that result is formatted, is raised by the
    command: only a missing analyzer is degraded to a notice. *)
Theorem search_command_and_analyzer :
  forall st query limit,
    (forall analyzers analyzers',
        main_search analyzers st query limit false
        = main_search analyzers' st query limit false)
    /\ (forall analyzers analyzer r results text e,
           import_chain analyzers = Some analyzer ->
           search st query limit = Ok (r :: results) ->
           format_result r true = Ok text ->
           get_context analyzer (r_session_id r) query 3 = Raise e ->
           main_search analyzers st query limit true = Raise e)
    /\ (forall analyzers r results e,
           search st query limit = Ok (r :: results) ->
           format_result r true = Raise e ->
           forall context,
             main_search analyzers st query limit context = Raise e).
Proof.
  intros st query limit. split; [|split].
  - intros analyzers analyzers'. unfold main_search.
    destruct (search st query limit) as [results|e]; [|reflexivity].
    cbn [bind]. destruct results as [|r results]; [reflexivity|].
    now rewrite !print_results_without_context.
  - intros analyzers analyzer r results text e Himp Hs Hfmt Hctx.
    unfold main_search. rewrite Hs. cbn [bind print_results].
    rewrite Hfmt. cbn [bind]. rewrite Himp, Hctx. reflexivity.
  - intros analyzers r results e Hs Hfmt context.
    unfold main_search. rewrite Hs. cbn [bind print_results].
    rewrite Hfmt. reflexivity.
Qed.

Lemma search_command_and_analyzer_witness :
  let failing := {| get_context := fun _ _ _ => Raise (OtherError (lit "boom")) |} in
  let analyzers := {| from_package := None; from_relative := Some failing;
                      from_legacy := None |} in
  import_chain analyzers = Some failing /\
  (exists r results text,
      search Demo.store (lit "hook") 20 = Ok (r :: results)
      /\ format_result r true = Ok text) /\
  main_search analyzers Demo.store (lit "hook") 20 true
  = Raise (OtherError (lit "boom")).
Proof.
  cbv zeta. split; [reflexivity|].
  split; [do 3 eexists; split; [reflexivity | vm_compute; reflexivity]|].
  eapply (proj1 (proj2 (search_command_and_analyzer Demo.store (lit "hook") 20)));
    [reflexivity | reflexivity | vm_compute; reflexivity | reflexivity].
Defined.

(** X24.  The [stats] command never shows the [error] entry of the
    dictionary.  For a dictionary without a date range and without
    breakdowns it prints the heading, the four counts, each read with the
    default 0, and a blank line; so when the indexer is missing it prints
    an overview of zeros. *)
Theorem stats_command_defaults :
  forall indexers st d,
    stats indexers st = Ok d ->
    dict_get d (lit "date_range") = None ->
    dict_get d (lit "by_project") = None ->
    dict_get d (lit "top_tools") = None ->
    main_stats indexers st
    = Ok [StatsText ([10; 128202; 32]%N ++ lit "Database overview");
          StatsText (repeat 9552%N 40);
          StatsCount (lit "Sessions:")
            (dict_get_default d (lit "total_sessions") (PyInt 0));
          StatsCount (lit "Topics:")
            (dict_get_default d (lit "total_topics") (PyInt 0));
          StatsCount (lit "Tools:")
            (dict_get_default d (lit "total_tools") (PyInt 0));
          StatsCount (lit "Agents:")
            (dict_get_default d (lit "total_agents") (PyInt 0));
          StatsText []].
Proof.
  intros indexers st d Hd Hrange Hproj Htools.
  unfold main_stats, stats_breakdown, dict_get_default.
  rewrite Hd. cbn [bind]. rewrite Hrange, Hproj, Htools. reflexivity.
Qed.

Lemma stats_command_defaults_witness :
  stats (absent Indexer) Demo.store = Ok stats_unavailable /\
  main_stats (absent Indexer) Demo.store
  = Ok [StatsText ([10; 128202; 32]%N ++ lit "Database overview");
        StatsText (repeat 9552%N 40);
        StatsCount (lit "Sessions:") (PyInt 0);
        StatsCount (lit "Topics:") (PyInt 0);
        StatsCount (lit "Tools:") (PyInt 0);
        StatsCount (lit "Agents:") (PyInt 0);
        StatsText []].
Proof.
  split; [reflexivity|].
  apply (@stats_command_defaults (absent Indexer) Demo.store stats_unavailable);
    reflexivity.
Defined.

(** X25.  The limit is handed to the store as it is: a negative count
    makes [recent] return every session, latest first, and the count 0
    none; and on no session at all the [recent] command still prints its
    heading, with the count 0, where the [find] command prints that no
    session matches. *)
Theorem recent_limit_edges :
  forall st clock,
    (forall n,
        (n < 0)%Z ->
        recent st clock n
        = Ok (map (fun s => enrich st s None)
                (Sql.order_by by_start_time_desc (sessions st))))
    /\ recent st clock 0 = Ok []
    /\ main_recent st clock 0 = Ok [Line (recent_header 0)]
    /\ (sessions st = [] ->
        forall n a,
          main_recent st clock n = Ok [Line (recent_header 0)]
          /\ (arg_week a = false ->
              main_find st clock a
              = Ok [Line (lit "No sessions match those filters.")])).
Proof.
  intros st clock. split; [|split; [|split]].
  - intros n Hn. unfold recent. rewrite find_none. unfold Sql.limit.
    destruct (Z.ltb_spec n 0); [reflexivity | lia].
  - unfold recent. rewrite find_none. reflexivity.
  - unfold main_recent, recent. rewrite find_none. reflexivity.
  - intros Hempty n a. split.
    + unfold main_recent, recent. rewrite find_none, Hempty.
      unfold Sql.limit. destruct (n <? 0)%Z; cbn [Sql.order_by firstn map bind length flat_map];
        [reflexivity|]. now rewrite firstn_nil.
    + intros Hweek. unfold main_find, find, find_conditions, find_rows.
      cbn [find_criteria Arg.client Arg.tag Arg.tool Arg.agent Arg.date Arg.week
           Arg.days Arg.project Arg.exclude_project Arg.has_compaction].
      rewrite Hweek, Hempty. cbn [bind]. unfold Sql.where_.
      cbn [filter Sql.order_by]. unfold Sql.limit.
      destruct (arg_limit a <? 0)%Z; [reflexivity|]. now rewrite firstn_nil.
Qed.

Lemma recent_limit_edges_witness :
  (-1 < 0)%Z /\
  recent Demo.store Demo.clock (-1)
  = Ok [enrich Demo.store Demo.beta None;
        enrich Demo.store Demo.unlabelled None;
        enrich Demo.store Demo.alpha None].
Proof.
  split; [lia|].
  rewrite (proj1 (recent_limit_edges Demo.store Demo.clock) (-1)%Z) by lia.
  reflexivity.
Defined.
